(** * RunFika map explorer: the orchestration logic of [AppContent]

    A shallow embedding of the state handling of [src/App.tsx]
    (component [AppContent]): the re-curation effect [updateRoutes], the
    selection handler [handleSelectDestination] and the category filter
    [handleCategoryFilter].  The second copy of the component
    ([src/unnamed/part_001]) has the same three functions; where it
    differs (an extra camera move in the category filter) this is noted
    at the definition.

    JavaScript numbers are IEEE 754 binary64 values and are modelled by
    Rocq's primitive floats, so [1.35] and [1.4] below are the very
    constants of the source.  React state and refs are one record; an
    [async] function is split at its [await] into the part that runs
    synchronously and the continuation that runs when the promise
    settles. *)

From Stdlib Require Import List String Bool ZArith Floats Permutation Sorted Lia.
Import ListNotations.

Set Warnings "-inexact-float".

(** ** Data model (the fields [App.tsx] reads or writes) *)

Record Coordinates := mkCoordinates { lng : float; lat : float }.

Inductive Category := cafe | bar.

Definition Category_eqb (a b : Category) : bool :=
  match a, b with
  | cafe, cafe | bar, bar => true
  | _, _ => false
  end.

Record Geometry := mkGeometry { geo_coordinates : list (float * float) }.

Record ViaWaypoint := mkViaWaypoint { wp_coordinates : Coordinates; wp_name : string }.

Record Route := mkRoute {
  distance : float;
  duration : float;
  geometry : option Geometry;
  steps : list string;
  isEstimate : bool;
  elevationGain : option float;
  viaWaypoint : option ViaWaypoint
}.

Record EnrichedDestination := mkDestination {
  id : string;
  name : string;
  category : Category;
  coordinates : Coordinates;
  openingHours : string;
  elevation : option float;
  route : option Route;
  preferredWaypoints : option (list Coordinates);
  linkedScenicRouteId : option string
}.

(** [{ ...d, route: r }] *)
Definition with_route (d : EnrichedDestination) (r : Route) : EnrichedDestination :=
  {| id := id d; name := name d; category := category d;
     coordinates := coordinates d; openingHours := openingHours d;
     elevation := elevation d; route := Some r;
     preferredWaypoints := preferredWaypoints d;
     linkedScenicRouteId := linkedScenicRouteId d |}.

(** ** What the component does to the outside world *)

Definition Error := string.

Inductive Padding :=
| PadAll (n : nat)
| PadSides (top bottom left right : nat).

Inductive Effect :=
| Call_curateDestinations (places : list EnrichedDestination)
| Call_getWalkingRoute (origin dest : Coordinates) (roundTrip scenic : bool)
    (waypoints : option (list Coordinates)) (originElevation destElevation : option float)
| FlyTo (center : Coordinates) (zoom : nat)
| FitBounds (coords : list (float * float)) (padding : Padding)
| ConsoleError (e : Error)
| UnhandledRejection (e : Error).

(** ** React state, refs and the effect log *)

Record World := mkWorld {
  userLocation : option Coordinates;
  userElevation : option float;
  destinations : list EnrichedDestination;
  selectedDestination : option EnrichedDestination;
  isLoading : bool;
  sidebarOpen : bool;
  isMobile : bool;
  lastCalcLocation : option Coordinates;   (* useRef *)
  mapCurrent : bool;                       (* is [map.current] non-null *)
  effects : list Effect                    (* oldest first *)
}.

(** ** A state monad with exceptions; state written before a throw stays written *)

Inductive Completion (A : Type) :=
| Normal (a : A)
| Throw (e : Error).
Arguments Normal {A} a.
Arguments Throw {A} e.

Definition M (A : Type) : Type := World -> Completion A * World.

Definition ret {A} (a : A) : M A := fun w => (Normal a, w).

Definition bind {A B} (m : M A) (k : A -> M B) : M B :=
  fun w => match m w with
           | (Normal a, w') => k a w'
           | (Throw e, w') => (Throw e, w')
           end.

Definition throw {A} (e : Error) : M A := fun w => (Throw e, w).

Declare Scope js_scope.
Delimit Scope js_scope with js.
Notation "x <- m ;; k" := (bind m (fun x => k))
  (at level 61, m at next level, right associativity) : js_scope.
Notation "m ;; k" := (bind m (fun _ => k))
  (at level 61, right associativity) : js_scope.
Open Scope js_scope.

(** [try { body } catch (e) { handler e }] *)
Definition try_catch {A} (body : M A) (handler : Error -> M A) : M A :=
  fun w => match body w with
           | (Normal a, w') => (Normal a, w')
           | (Throw e, w') => handler e w'
           end.

(** [try { body } finally { fin }]: [fin] always runs; a throw of [body]
    goes on after it. *)
Definition try_finally {A} (body : M A) (fin : M unit) : M A :=
  fun w => match body w with
           | (c, w') => match fin w' with
                        | (Normal _, w'') => (c, w'')
                        | (Throw e, w'') => (Throw e, w'')
                        end
           end.

Definition modify (f : World -> World) : M unit := fun w => (Normal tt, f w).

Definition when (b : bool) (m : M unit) : M unit := if b then m else ret tt.

(** The setters of [useState] and the assignments to refs. *)

Definition setUserLocation (v : option Coordinates) : M unit :=
  modify (fun w => mkWorld v (userElevation w) (destinations w) (selectedDestination w)
    (isLoading w) (sidebarOpen w) (isMobile w) (lastCalcLocation w) (mapCurrent w) (effects w)).

Definition setUserElevation (v : option float) : M unit :=
  modify (fun w => mkWorld (userLocation w) v (destinations w) (selectedDestination w)
    (isLoading w) (sidebarOpen w) (isMobile w) (lastCalcLocation w) (mapCurrent w) (effects w)).

Definition setDestinations (v : list EnrichedDestination) : M unit :=
  modify (fun w => mkWorld (userLocation w) (userElevation w) v (selectedDestination w)
    (isLoading w) (sidebarOpen w) (isMobile w) (lastCalcLocation w) (mapCurrent w) (effects w)).

(** [setDestinations(prev => f prev)] *)
Definition updateDestinations (f : list EnrichedDestination -> list EnrichedDestination) : M unit :=
  modify (fun w => mkWorld (userLocation w) (userElevation w) (f (destinations w))
    (selectedDestination w) (isLoading w) (sidebarOpen w) (isMobile w) (lastCalcLocation w)
    (mapCurrent w) (effects w)).

Definition setSelectedDestination (v : option EnrichedDestination) : M unit :=
  modify (fun w => mkWorld (userLocation w) (userElevation w) (destinations w) v
    (isLoading w) (sidebarOpen w) (isMobile w) (lastCalcLocation w) (mapCurrent w) (effects w)).

Definition setIsLoading (v : bool) : M unit :=
  modify (fun w => mkWorld (userLocation w) (userElevation w) (destinations w)
    (selectedDestination w) v (sidebarOpen w) (isMobile w) (lastCalcLocation w)
    (mapCurrent w) (effects w)).

Definition setSidebarOpen (v : bool) : M unit :=
  modify (fun w => mkWorld (userLocation w) (userElevation w) (destinations w)
    (selectedDestination w) (isLoading w) v (isMobile w) (lastCalcLocation w)
    (mapCurrent w) (effects w)).

Definition setLastCalcLocation (v : option Coordinates) : M unit :=
  modify (fun w => mkWorld (userLocation w) (userElevation w) (destinations w)
    (selectedDestination w) (isLoading w) (sidebarOpen w) (isMobile w) v
    (mapCurrent w) (effects w)).

Definition emit (e : Effect) : M unit :=
  modify (fun w => mkWorld (userLocation w) (userElevation w) (destinations w)
    (selectedDestination w) (isLoading w) (sidebarOpen w) (isMobile w) (lastCalcLocation w)
    (mapCurrent w) (effects w ++ [e])).

(** [map.current?.flyTo(...)] *)
Definition map_flyTo (center : Coordinates) (zoom : nat) : M unit :=
  fun w => when (mapCurrent w) (emit (FlyTo center zoom)) w.

(** ** Promises *)

Inductive Settled (A : Type) :=
| Resolved (a : A)
| Rejected (e : Error).
Arguments Resolved {A} a.
Arguments Rejected {A} e.

(** [await p] once [p] has settled. *)
Definition await {A} (p : Settled A) : M A :=
  match p with
  | Resolved a => ret a
  | Rejected e => throw e
  end.

(** ** [Array.prototype.sort]

    ECMAScript: the sort is stable; a comparator result that is [NaN]
    counts as [+0]; [x] goes before [y] when [comparefn(x, y) < 0].  For a
    comparator that is a consistent ordering the result is the one stable
    sorted arrangement, which the insertion sort below computes. *)

Definition goesBefore {A} (comparefn : A -> A -> float) (x y : A) : bool :=
  (comparefn x y <? 0)%float.

Fixpoint sort_insert {A} (comparefn : A -> A -> float) (x : A) (l : list A) : list A :=
  match l with
  | [] => [x]
  | y :: t => if goesBefore comparefn y x then y :: sort_insert comparefn x t
              else x :: y :: t
  end.

Fixpoint Array_sort {A} (comparefn : A -> A -> float) (l : list A) : list A :=
  match l with
  | [] => []
  | x :: t => sort_insert comparefn x (Array_sort comparefn t)
  end.

(** [n || Infinity] on a number: [0], [-0] and [NaN] are falsy. *)
Definition orInfinity (n : float) : float :=
  if is_zero n || is_nan n then infinity else n.

(** [d.route?.distance || Infinity] *)
Definition distanceOrInfinity (d : EnrichedDestination) : float :=
  match route d with
  | None => infinity
  | Some r => orInfinity (distance r)
  end.

(** [(a, b) => (a.route?.distance || Infinity) - (b.route?.distance || Infinity)] *)
Definition byDistance (a b : EnrichedDestination) : float :=
  (distanceOrInfinity a - distanceOrInfinity b)%float.

(** [Object.is] on [number | undefined] *)
Definition Object_is (a b : option float) : bool :=
  match a, b with
  | Some x, Some y => Leibniz.eqb x y
  | None, None => true
  | _, _ => false
  end.

(** ** Frames of the suspended [async] functions: what the continuation
    after the [await] still reads from its closure *)

Record CurationFrame := mkCurationFrame {
  cf_selectedDestination : option EnrichedDestination
}.

Record RouteFrame := mkRouteFrame {
  rf_destination : EnrichedDestination;
  rf_isMobile : bool
}.

(** The values [handleSelectDestination] closes over ([useCallback] with
    dependencies [userLocation, isMobile, userElevation]).  The sidebar is
    handed the callback of the latest render; a marker keeps the callback
    of the render in which the markers were last rebuilt. *)
Record SelectClosure := mkSelectClosure {
  cl_userLocation : option Coordinates;
  cl_isMobile : bool;
  cl_userElevation : option float
}.

Definition closureOf (w : World) : SelectClosure :=
  mkSelectClosure (userLocation w) (isMobile w) (userElevation w).

(** ** Sample data for the worked examples

    A planar stand-in for the imported [getDistance], and a seed list of
    three bars and two cafes. *)

Definition planarDistance (a b : Coordinates) : float :=
  let dx := (lng a - lng b)%float in
  let dy := (lat a - lat b)%float in
  sqrt (dx * dx + dy * dy)%float.

Definition place (i : string) (c : Category) (x y : float) : EnrichedDestination :=
  mkDestination i i c (mkCoordinates x y) "" None None None None.

Definition seed3bars2cafes : list EnrichedDestination :=
  [ place "bar-1" bar 100 0; place "cafe-1" cafe 0 200; place "bar-2" bar 300 400;
    place "cafe-2" cafe 30 40; place "bar-3" bar 0 50 ]%float.

Definition realRoute (d : float) : Route :=
  mkRoute d (d / 1.4)%float (Some (mkGeometry [(0, 0); (3, 4)]%float)) ["Head north"%string]
          false None None.

Definition estimateRoute (d : float) : Route :=
  mkRoute d (d / 1.4)%float (Some (mkGeometry [])) [] true None None.

Definition origin : Coordinates := mkCoordinates 0 0.

(** The component once mounted: the seed list is installed and the map
    exists; nothing else has happened yet. *)
Definition mounted (seed : list EnrichedDestination) : World :=
  mkWorld None None seed None false true false None true [].

(** The user has been located at the origin; nothing is loading. *)
Definition located (seed : list EnrichedDestination) : World :=
  mkWorld (Some origin) None seed None false true false None true [].

Definition bar1 : EnrichedDestination := place "bar-1" bar 100 0.

(** Two curated entries: one right where the user stands, one further off. *)
Definition here : EnrichedDestination := with_route (place "here" cafe 0 0) (estimateRoute 0).
Definition there : EnrichedDestination := with_route (place "there" bar 3 4) (estimateRoute 6.75).


Section App.

(** [getDistance] of [services/mapboxService] and [FEATURED_CAFES] of
    [constants] are imported by [App.tsx]; their definitions are not part
    of the sources at hand, so the component is modelled over them. *)
Variable getDistance : Coordinates -> Coordinates -> float.
Variable FEATURED_CAFES : list EnrichedDestination.

(** *** [updateRoutes] (App.tsx 267-292, part_001 362-389) *)

Definition isLocChanged (userLoc last : option Coordinates) : bool :=
  match last with
  | None => true                                   (* !lastCalcLocation.current *)
  | Some l =>
      match userLoc with
      | None => false                              (* userLocation && ... *)
      | Some u => (20 <? getDistance u l)%float    (* getDistance(...) > 20 *)
      end
  end.

(** The body of [destinations.map(d => ...)]. *)
Definition withEstimate (userLoc : Coordinates) (userElev : option float)
    (d : EnrichedDestination) : EnrichedDestination :=
  let dist := getDistance userLoc (coordinates d) in
  let estWalkDist := (dist * 1.35)%float in
  let netElev := match elevation d, userElev with
                 | Some de, Some ue => Some (de - ue)%float
                 | _, _ => None
                 end in
  with_route d {| distance := estWalkDist;
                  duration := (estWalkDist / 1.4)%float;
                  geometry := Some (mkGeometry []);
                  steps := [];
                  isEstimate := true;
                  elevationGain := netElev;
                  viaWaypoint := None |}.

(** Up to [await curateDestinations(placesWithEstimates)].  The effect
    runs right after the render whose values it closes over, so those
    values are the ones of the world it starts in. *)
Definition updateRoutes_start : M (option CurationFrame) :=
  fun render =>
    let changed := isLocChanged (userLocation render) (lastCalcLocation render) in
    match userLocation render with
    | Some u =>
        if Nat.ltb 0 (List.length (destinations render)) && negb (isLoading render) && changed
        then
          (setIsLoading true ;;
           setLastCalcLocation (Some u) ;;
           let placesWithEstimates :=
             map (withEstimate u (userElevation render)) (destinations render) in
           emit (Call_curateDestinations placesWithEstimates) ;;
           ret (Some (mkCurationFrame (selectedDestination render)))) render
        else ret None render
    | None => ret None render
    end.

(** From the settling of the curation promise to the end of the function. *)
Definition updateRoutes_resume (fr : CurationFrame)
    (response : Settled (list EnrichedDestination)) : M unit :=
  try_finally
    (try_catch
       (curated <- await response ;;
        let curated := Array_sort byDistance curated in
        setDestinations curated ;;
        match cf_selectedDestination fr with
        | Some sel =>
            match find (fun d => String.eqb (id d) (id sel)) curated with
            | Some updated => setSelectedDestination (Some updated)
            | None => ret tt
            end
        | None => ret tt
        end)
       (fun e => emit (ConsoleError e)))
    (setIsLoading false).

(** *** [handleSelectDestination] (App.tsx 294-315, part_001 392-419) *)

(** [!destination.route || destination.route.isEstimate] *)
Definition lacksRealRoute (destination : EnrichedDestination) : bool :=
  match route destination with
  | None => true
  | Some r => isEstimate r
  end.

Definition handleSelectDestination_start (cl : SelectClosure)
    (destination : EnrichedDestination) : M (option RouteFrame) :=
  setSelectedDestination (Some destination) ;;
  when (negb (cl_isMobile cl)) (setSidebarOpen true) ;;
  map_flyTo (coordinates destination) 14 ;;
  match cl_userLocation cl with
  | Some u =>
      if lacksRealRoute destination then
        setIsLoading true ;;
        emit (Call_getWalkingRoute u (coordinates destination) false false
                (preferredWaypoints destination) (cl_userElevation cl)
                (elevation destination)) ;;
        ret (Some (mkRouteFrame destination (cl_isMobile cl)))
      else ret None
  | None => ret None
  end.

Definition fitRoute (isMob : bool) (realRoute : Route) : M unit :=
  fun w =>
    match geometry realRoute with
    | Some g =>
        when (mapCurrent w)
          (emit (FitBounds (geo_coordinates g)
                   (if isMob then PadSides 50 400 50 50 else PadAll 100))) w
    | None => ret tt w
    end.

(** The source has [try { ... } finally { setIsLoading(false) }] here,
    without a [catch]. *)
Definition handleSelectDestination_resume (fr : RouteFrame)
    (response : Settled (option Route)) : M unit :=
  let destination := rf_destination fr in
  try_finally
    (realRoute <- await response ;;
     match realRoute with
     | Some realRoute =>
         let updated := with_route destination realRoute in
         setSelectedDestination (Some updated) ;;
         updateDestinations
           (map (fun d => if String.eqb (id d) (id destination) then updated else d)) ;;
         fitRoute (rf_isMobile fr) realRoute
     | None => ret tt
     end)
    (setIsLoading false).

(** *** [handleCategoryFilter] (App.tsx 335-340) *)

Definition handleCategoryFilter (type : Category) : M unit :=
  fun w =>
    (let filtered := filter (fun p => Category_eqb (category p) type) FEATURED_CAFES in
     setDestinations filtered ;;
     setSelectedDestination None ;;
     when (negb (isMobile w)) (setSidebarOpen true)) w.

(** The copy in part_001 (444-453) also moves the camera to the first hit. *)
Definition handleCategoryFilter_part001 (type : Category) : M unit :=
  fun w =>
    (let filtered := filter (fun p => Category_eqb (category p) type) FEATURED_CAFES in
     setDestinations filtered ;;
     setSelectedDestination None ;;
     when (negb (isMobile w)) (setSidebarOpen true) ;;
     match filtered with
     | first :: _ => when (mapCurrent w) (emit (FlyTo (coordinates first) 12))
     | [] => ret tt
     end) w.

(** *** The event loop

    Everything runs on one thread: an event is handled to its end (for an
    [async] function: to its [await]) before the next one. *)

Record System := mkSystem {
  world : World;
  curationsInFlight : list CurationFrame;
  routesInFlight : list RouteFrame
}.

Inductive Event :=
| UserLocationChanged (c : Coordinates)   (* [setUserLocation]: geolocation fix, marker drag *)
| UserElevationChanged (e : float)        (* [setUserElevation(ele)] *)
| SidebarSelect (d : EnrichedDestination) (* [onSelect] of the sidebar *)
| MarkerClick (cl : SelectClosure) (d : EnrichedDestination)
| CategoryFilter (t : Category)
| CurationSettled (n : nat) (r : Settled (list EnrichedDestination))
| RouteSettled (n : nat) (r : Settled (option Route)).

(** Nobody handles the promise of these [async] functions: a rejection
    ends up with the runtime. *)
Definition unhandled {A} (r : Completion A * World) : option A * World :=
  match r with
  | (Normal a, w) => (Some a, w)
  | (Throw e, w) => (None, snd (emit (UnhandledRejection e) w))
  end.

Fixpoint extract {A} (n : nat) (l : list A) : option (A * list A) :=
  match l, n with
  | [], _ => None
  | x :: t, O => Some (x, t)
  | x :: t, S n' =>
      match extract n' t with
      | Some (y, r) => Some (y, x :: r)
      | None => None
      end
  end.

(** The effect with dependencies [userLocation, userElevation]. *)
Definition runUpdateRoutes (w : World) (sys : System) : System :=
  match unhandled (updateRoutes_start w) with
  | (Some (Some fr), w') => mkSystem w' (curationsInFlight sys ++ [fr]) (routesInFlight sys)
  | (_, w') => mkSystem w' (curationsInFlight sys) (routesInFlight sys)
  end.

Definition runSelect (cl : SelectClosure) (d : EnrichedDestination) (sys : System) : System :=
  match unhandled (handleSelectDestination_start cl d (world sys)) with
  | (Some (Some fr), w') => mkSystem w' (curationsInFlight sys) (routesInFlight sys ++ [fr])
  | (_, w') => mkSystem w' (curationsInFlight sys) (routesInFlight sys)
  end.

Definition step (ev : Event) (sys : System) : System :=
  match ev with
  | UserLocationChanged c =>
      (* a fresh object: the dependency always counts as changed *)
      runUpdateRoutes (snd (setUserLocation (Some c) (world sys))) sys
  | UserElevationChanged e =>
      if Object_is (userElevation (world sys)) (Some e) then sys
      else runUpdateRoutes (snd (setUserElevation (Some e) (world sys))) sys
  | SidebarSelect d => runSelect (closureOf (world sys)) d sys
  | MarkerClick cl d => runSelect cl d sys
  | CategoryFilter t =>
      mkSystem (snd (unhandled (handleCategoryFilter t (world sys))))
               (curationsInFlight sys) (routesInFlight sys)
  | CurationSettled n r =>
      match extract n (curationsInFlight sys) with
      | Some (fr, rest) =>
          mkSystem (snd (unhandled (updateRoutes_resume fr r (world sys))))
                   rest (routesInFlight sys)
      | None => sys
      end
  | RouteSettled n r =>
      match extract n (routesInFlight sys) with
      | Some (fr, rest) =>
          mkSystem (snd (unhandled (handleSelectDestination_resume fr r (world sys))))
                   (curationsInFlight sys) rest
      | None => sys
      end
  end.

Definition run (evs : list Event) (sys : System) : System :=
  fold_left (fun s ev => step ev s) evs sys.

(** The curation requests sent so far. *)
Definition curationCalls (w : World) : list (list EnrichedDestination) :=
  flat_map (fun e => match e with Call_curateDestinations p => [p] | _ => [] end) (effects w).

(** The walking-route requests sent so far. *)
Definition routeCalls (w : World) : list Effect :=
  filter (fun e => match e with Call_getWalkingRoute _ _ _ _ _ _ _ => true | _ => false end)
         (effects w).

Definition isMovement (ev : Event) : bool :=
  match ev with
  | UserLocationChanged _ | UserElevationChanged _ => true
  | _ => false
  end.

(** Where the user is once the event has been taken in. *)
Definition locationAfter (ev : Event) (w : World) : option Coordinates :=
  match ev with
  | UserLocationChanged c => Some c
  | _ => userLocation w
  end.

(** ** The rest of the component *)

Definition setIsMobile (v : bool) : M unit :=
  modify (fun w => mkWorld (userLocation w) (userElevation w) (destinations w)
    (selectedDestination w) (isLoading w) (sidebarOpen w) v (lastCalcLocation w)
    (mapCurrent w) (effects w)).

(** *** [checkMobile] (App.tsx 87-91) *)

Definition checkMobile (innerWidth : nat) : M unit :=
  let mobile := Nat.ltb innerWidth 768 in
  setIsMobile mobile ;;
  when mobile (setSidebarOpen false).

(** *** [handleBack] and [recenter] (App.tsx 342-343) *)

Definition handleBack : M unit :=
  fun w => (setSelectedDestination None ;; when (isMobile w) (setSidebarOpen true)) w.

(** [userLocation || gpsLocation] *)
Definition recenterTarget (userLoc gps : option Coordinates) : option Coordinates :=
  match userLoc with
  | Some u => Some u
  | None => gps
  end.

Definition recenter (gps : option Coordinates) : M unit :=
  fun w =>
    match recenterTarget (userLocation w) gps with
    | Some target => when (mapCurrent w) (emit (FlyTo target 14)) w
    | None => ret tt w
    end.

(** *** [getSidebarClasses] and the "Explore Spots" button (App.tsx 345-358) *)

Definition getSidebarClasses (w : World) : string :=
  if negb (isMobile w) then
    ("absolute inset-y-0 right-0 w-96 z-[20] shadow-2xl transition-transform " ++
       (if sidebarOpen w then "translate-x-0" else "translate-x-full"))%string
  else
    let base := "fixed left-0 right-0 z-[30] transition-transform bg-white shadow-xl rounded-t-3xl flex flex-col"%string in
    match selectedDestination w with
    | Some _ => (base ++ " bottom-0 h-[65vh] translate-y-0")%string
    | None =>
        if sidebarOpen w then (base ++ " bottom-0 h-[55vh] translate-y-0")%string
        else (base ++ " bottom-0 h-[55vh] translate-y-full")%string
    end.

(** [isMobile && !sidebarOpen && !selectedDestination] *)
Definition exploreButtonShown (w : World) : bool :=
  isMobile w && negb (sidebarOpen w) &&
  match selectedDestination w with Some _ => false | None => true end.

(** The CSS classes of a [className], split at the blanks. *)
Fixpoint classesFrom (acc : string) (s : string) : list string :=
  match s with
  | EmptyString => [acc]
  | String c rest =>
      if Ascii.eqb c (Ascii.ascii_of_nat 32) then acc :: classesFrom EmptyString rest
      else classesFrom (acc ++ String c EmptyString)%string rest
  end.

Definition classList (s : string) : list string := classesFrom EmptyString s.

Definition hasClass (cls : string) (s : string) : bool :=
  existsb (String.eqb cls) (classList s).

(** *** [handleUpdateRoute] (App.tsx 317-333, part_001 421-442)

    The callback is rebuilt whenever [userLocation], [destinations],
    [userElevation] or [isMobile] change and is handed to the sidebar, so
    what it closes over is the state at the call. *)

Record DetourRequest := mkDetourRequest {
  dr_origin : Coordinates;
  dr_destination : Coordinates;
  dr_dist : float;
  dr_roundTrip : bool;
  dr_scenic : bool;
  dr_waypoints : option (list Coordinates);
  dr_linkedScenicRouteId : option string;
  dr_originElevation : option float;
  dr_destElevation : option float
}.

Record DetourFrame := mkDetourFrame {
  df_destId : string;
  df_dest : EnrichedDestination;
  df_isMobile : bool
}.

(** Up to [await getDetourRoute(...)]: the call that is made, if any. *)
Definition handleUpdateRoute_start (destId : string) (dist : float)
    (roundTrip scenic : bool) : M (option (DetourRequest * DetourFrame)) :=
  fun w =>
    match userLocation w with
    | None => ret None w                                   (* if (!userLocation) return *)
    | Some u =>
        match find (fun d => String.eqb (id d) destId) (destinations w) with
        | None => ret None w                               (* if (!dest) return *)
        | Some dest =>
            ret (Some (mkDetourRequest u (coordinates dest) dist roundTrip scenic
                         (preferredWaypoints dest) (linkedScenicRouteId dest)
                         (userElevation w) (elevation dest),
                       mkDetourFrame destId dest (isMobile w))) w
        end
    end.

(** The source has no [try] around this [await]. *)
Definition handleUpdateRoute_resume (fr : DetourFrame)
    (response : Settled (option Route)) : M unit :=
  newRoute <- await response ;;
  match newRoute with
  | Some newRoute =>
      let updated := with_route (df_dest fr) newRoute in
      setSelectedDestination (Some updated) ;;
      updateDestinations
        (map (fun d => if String.eqb (id d) (df_destId fr) then updated else d)) ;;
      fitRoute (df_isMobile fr) newRoute
  | None => ret tt
  end.

(** *** The geolocation callbacks (App.tsx 250-265) *)

(** The success callback, up to the [fetchPointElevation] it starts; the
    [setGpsLocation] is in the page below. *)
Definition onPosition (coords : Coordinates) : M unit :=
  setUserLocation (Some coords) ;;
  fun w => when (mapCurrent w) (emit (FlyTo coords 13)) w.

Definition onPositionError (err : Error) : M unit := emit (ConsoleError err).

(** *** The page: the event loop above with the remaining handlers *)

Record Page := mkPage {
  base : System;
  detoursInFlight : list DetourFrame;
  detourCalls : list DetourRequest;      (* [getDetourRoute] calls, oldest first *)
  gpsLocation : option Coordinates;
  hasInitialLoaded : bool
}.

Inductive PageEvent :=
| Basic (ev : Event)
| InitialData                             (* the effect on [hasInitialLoaded] *)
| GeolocationFix (coords : Coordinates)
| GeolocationError (err : Error)
| Resize (innerWidth : nat)
| Back
| Recenter
| UpdateRoute (destId : string) (dist : float) (roundTrip scenic : bool)
| DetourSettled (n : nat) (r : Settled (option Route)).

Definition withWorld (w : World) (p : Page) : Page :=
  mkPage (mkSystem w (curationsInFlight (base p)) (routesInFlight (base p)))
         (detoursInFlight p) (detourCalls p) (gpsLocation p) (hasInitialLoaded p).

Definition withBase (s : System) (p : Page) : Page :=
  mkPage s (detoursInFlight p) (detourCalls p) (gpsLocation p) (hasInitialLoaded p).

Definition pageWorld (p : Page) : World := world (base p).

Definition pageStep (ev : PageEvent) (p : Page) : Page :=
  match ev with
  | Basic ev => withBase (step ev (base p)) p
  | InitialData =>
      if hasInitialLoaded p then p
      else mkPage (mkSystem (snd (setDestinations FEATURED_CAFES (pageWorld p)))
                            (curationsInFlight (base p)) (routesInFlight (base p)))
                  (detoursInFlight p) (detourCalls p) (gpsLocation p) true
  | GeolocationFix coords =>
      (* the callback, then the effect on [userLocation] *)
      let w := snd (unhandled (onPosition coords (pageWorld p))) in
      mkPage (runUpdateRoutes w (base p))
             (detoursInFlight p) (detourCalls p) (Some coords) (hasInitialLoaded p)
  | GeolocationError err => withWorld (snd (unhandled (onPositionError err (pageWorld p)))) p
  | Resize width => withWorld (snd (unhandled (checkMobile width (pageWorld p)))) p
  | Back => withWorld (snd (unhandled (handleBack (pageWorld p)))) p
  | Recenter => withWorld (snd (unhandled (recenter (gpsLocation p) (pageWorld p)))) p
  | UpdateRoute destId dist roundTrip scenic =>
      match unhandled (handleUpdateRoute_start destId dist roundTrip scenic (pageWorld p)) with
      | (Some (Some (req, fr)), w) =>
          mkPage (mkSystem w (curationsInFlight (base p)) (routesInFlight (base p)))
                 (detoursInFlight p ++ [fr]) (detourCalls p ++ [req])
                 (gpsLocation p) (hasInitialLoaded p)
      | (_, w) => withWorld w p
      end
  | DetourSettled n r =>
      match extract n (detoursInFlight p) with
      | Some (fr, rest) =>
          mkPage (mkSystem (snd (unhandled (handleUpdateRoute_resume fr r (pageWorld p))))
                           (curationsInFlight (base p)) (routesInFlight (base p)))
                 rest (detourCalls p) (gpsLocation p) (hasInitialLoaded p)
      | None => p
      end
  end.

Definition pageRun (evs : list PageEvent) (p : Page) : Page :=
  fold_left (fun q ev => pageStep ev q) evs p.

(** The component at its first render. *)
Definition firstRender : Page :=
  mkPage (mkSystem (mkWorld None None [] None false true false None true []) [] [])
         [] [] None false.

(** *** Destination markers (App.tsx 150-185)

    [markersRef.current] is an object keyed by destination id; the markers
    themselves live on the map until their [remove()] is called.  The click
    listener of a marker closes over its [dest] and over the
    [handleSelectDestination] of the render in which the effect ran. *)

Record Marker := mkMarker {
  mk_serial : nat;                       (* which object it is *)
  mk_lngLat : Coordinates;
  mk_dest : EnrichedDestination;
  mk_closure : SelectClosure
}.

Record MarkerLayer := mkMarkerLayer {
  markersRef : list (string * Marker);   (* the own properties of the object *)
  onMap : list Marker;                   (* added to the map and not removed *)
  created : nat
}.

(** Writing an own property of a plain object: an existing key keeps its
    place, a new one is added. *)
Fixpoint obj_setOwn {V} (key : string) (value : V) (obj : list (string * V))
    : list (string * V) :=
  match obj with
  | [] => [(key, value)]
  | (k, v) :: rest =>
      if String.eqb k key then (k, value) :: rest
      else (k, v) :: obj_setOwn key value rest
  end.

(** [obj[key] = value] on an object made by [{}], [value] an object.  The
    key ["__proto__"] is the accessor of [Object.prototype]: the
    assignment sets the prototype of [obj] and makes no own property, so
    [Object.keys] and [Object.values] do not see it.  Every other key is
    written as an own property (the markers that can become the prototype
    bring only methods and writable data properties). *)
Definition obj_set {V} (key : string) (value : V) (obj : list (string * V))
    : list (string * V) :=
  if String.eqb key "__proto__" then obj else obj_setOwn key value obj.

(** [marker.remove()] *)
Definition removeMarker (m : Marker) (l : list Marker) : list Marker :=
  filter (fun x => negb (Nat.eqb (mk_serial x) (mk_serial m))) l.

(** The body of [destinations.forEach(dest => ...)]. *)
Definition addMarker (render : World) (layer : MarkerLayer) (dest : EnrichedDestination)
    : MarkerLayer :=
  let marker := mkMarker (created layer) (coordinates dest) dest (closureOf render) in
  mkMarkerLayer (obj_set (id dest) marker (markersRef layer))
                (onMap layer ++ [marker])
                (S (created layer)).

Definition syncMarkers (render : World) (layer : MarkerLayer) : MarkerLayer :=
  if negb (mapCurrent render) || Nat.eqb (List.length (destinations render)) 0 then layer
  else
    let cleared :=
      mkMarkerLayer []
        (fold_left (fun l kv => removeMarker (snd kv) l) (markersRef layer) (onMap layer))
        (created layer) in
    fold_left (addMarker render) (destinations render) cleared.

(** The click listener of a marker. *)
Definition clickMarker (m : Marker) : M (option RouteFrame) :=
  handleSelectDestination_start (mk_closure m) (mk_dest m).

(** *** Marker emphasis (App.tsx 187-203): which tracked markers carry the
    emphasis after the effect on [selectedDestination] has run *)

(** [selectedDestination?.id === id] *)
Definition isSelectedId (selected : option EnrichedDestination) (key : string) : bool :=
  match selected with
  | Some s => String.eqb (id s) key
  | None => false
  end.

Definition emphasised (render : World) (layer : MarkerLayer) : list Marker :=
  map snd (filter (fun kv => isSelectedId (selectedDestination render) (fst kv))
                  (markersRef layer)).

(** *** Route line and via marker (App.tsx 121-143 and 222-248) *)

Record ViaMarker := mkViaMarker {
  vm_serial : nat;
  vm_lngLat : Coordinates
}.

Record RouteLayer := mkRouteLayer {
  routeSource : option (option Geometry);  (* [None]: no 'route' source yet;
                                              [Some None]: an empty collection *)
  routeViaMarkerRef : option nat;          (* serial of the marker in the ref *)
  viaOnMap : list ViaMarker;
  viaCreated : nat
}.

(** The ['load'] listener of the map: the source is added once, empty. *)
Definition onMapLoad (layer : RouteLayer) : RouteLayer :=
  match routeSource layer with
  | Some _ => layer
  | None => mkRouteLayer (Some None) (routeViaMarkerRef layer) (viaOnMap layer)
                         (viaCreated layer)
  end.

(** [selectedDestination?.route?.geometry] *)
Definition selectedGeometry (w : World) : option Geometry :=
  match selectedDestination w with
  | Some d => match route d with Some r => geometry r | None => None end
  | None => None
  end.

(** [selectedDestination?.route?.viaWaypoint] *)
Definition selectedVia (w : World) : option ViaWaypoint :=
  match selectedDestination w with
  | Some d => match route d with Some r => viaWaypoint r | None => None end
  | None => None
  end.

(** [marker.setLngLat(pos)] on the marker with serial [s] *)
Definition moveVia (s : nat) (pos : Coordinates) (l : list ViaMarker) : list ViaMarker :=
  map (fun m => if Nat.eqb (vm_serial m) s then mkViaMarker s pos else m) l.

Definition syncRoute (render : World) (layer : RouteLayer) : RouteLayer :=
  if negb (mapCurrent render) then layer
  else
    let source := match routeSource layer with
                  | Some _ => Some (selectedGeometry render)
                  | None => None
                  end in
    match selectedVia render with
    | Some wp =>
        match routeViaMarkerRef layer with
        | None =>
            mkRouteLayer source (Some (viaCreated layer))
              (viaOnMap layer ++ [mkViaMarker (viaCreated layer) (wp_coordinates wp)])
              (S (viaCreated layer))
        | Some s =>
            mkRouteLayer source (Some s) (moveVia s (wp_coordinates wp) (viaOnMap layer))
              (viaCreated layer)
        end
    | None =>
        match routeViaMarkerRef layer with
        | Some s =>
            mkRouteLayer source None
              (filter (fun m => negb (Nat.eqb (vm_serial m) s)) (viaOnMap layer))
              (viaCreated layer)
        | None => mkRouteLayer source None (viaOnMap layer) (viaCreated layer)
        end
    end.

(** The refs before the first effect has run: [useRef({})], [useRef(null)]. *)
Definition noMarkers : MarkerLayer := mkMarkerLayer [] [] 0.
Definition noRoute : RouteLayer := mkRouteLayer None None [] 0.

(** What the effects do over a sequence of renders. *)
Definition syncMarkersOver (renders : list World) (layer : MarkerLayer) : MarkerLayer :=
  fold_left (fun l r => syncMarkers r l) renders layer.

(** [Some render]: the route effect runs in that render; [None]: the map
    fires ['load']. *)
Definition routeLayerStep (layer : RouteLayer) (ev : option World) : RouteLayer :=
  match ev with
  | Some render => syncRoute render layer
  | None => onMapLoad layer
  end.

Definition syncRouteOver (evs : list (option World)) (layer : RouteLayer) : RouteLayer :=
  fold_left routeLayerStep evs layer.

(** The markers the effect creates for a list, the first with serial [n]. *)
Fixpoint markersFor (render : World) (n : nat) (ds : list EnrichedDestination) : list Marker :=
  match ds with
  | [] => []
  | d :: t => mkMarker n (coordinates d) d (closureOf render) :: markersFor render (S n) t
  end.


(** ** Properties *)

(** *** Floats: [x <= y] excludes [y < x] *)

Lemma SFcompare_swap (a b : spec_float) :
  SFcompare b a = option_map CompOpp (SFcompare a b).
Proof.
  destruct a as [sa|sa| |sa ma ea], b as [sb|sb| |sb mb eb]; simpl; try reflexivity;
    try (destruct sa; reflexivity); try (destruct sb; reflexivity);
    try (destruct sa, sb; reflexivity).
  pose proof (Pos.compare_cont_antisym ma mb Eq) as H.
  change (CompOpp Eq) with Eq in H.
  destruct sa, sb; simpl; try reflexivity;
    rewrite (Z.compare_antisym ea eb); destruct (Z.compare ea eb); simpl; try reflexivity.
  - f_equal. f_equal. symmetry. exact H.
  - f_equal. symmetry. exact H.
Qed.

Lemma leb_not_ltb (x y : float) : (x <=? y)%float = true -> (y <? x)%float = false.
Proof.
  rewrite leb_spec, ltb_spec. unfold SFleb, SFltb.
  rewrite (SFcompare_swap (Prim2SF x) (Prim2SF y)).
  destruct (SFcompare (Prim2SF x) (Prim2SF y)) as [[]|]; simpl; congruence.
Qed.

(** *** The monad, unfolded *)

Ltac js_unfold :=
  unfold updateRoutes_start, updateRoutes_resume, handleSelectDestination_start,
    handleSelectDestination_resume, handleCategoryFilter, handleCategoryFilter_part001,
    fitRoute, map_flyTo, try_finally, try_catch, await, when, bind, ret, throw,
    setUserLocation, setUserElevation, setDestinations, updateDestinations,
    setSelectedDestination, setIsLoading, setSidebarOpen, setLastCalcLocation,
    emit, modify in *.

(** What a run of the effect does, case by case. *)
Lemma updateRoutes_start_cases (w : World) :
  (exists u,
      userLocation w = Some u /\
      Nat.ltb 0 (List.length (destinations w)) = true /\
      isLoading w = false /\
      isLocChanged (userLocation w) (lastCalcLocation w) = true /\
      updateRoutes_start w =
        (Normal (Some (mkCurationFrame (selectedDestination w))),
         mkWorld (userLocation w) (userElevation w) (destinations w) (selectedDestination w)
           true (sidebarOpen w) (isMobile w) (Some u) (mapCurrent w)
           (effects w ++
              [Call_curateDestinations
                 (map (withEstimate u (userElevation w)) (destinations w))])))
  \/
  ((userLocation w = None \/ Nat.ltb 0 (List.length (destinations w)) = false \/
    isLoading w = true \/ isLocChanged (userLocation w) (lastCalcLocation w) = false) /\
   updateRoutes_start w = (Normal None, w)).
Proof.
  unfold updateRoutes_start.
  destruct (userLocation w) as [u|] eqn:Hu.
  - destruct (Nat.ltb 0 (List.length (destinations w))) eqn:Hn; simpl.
    + destruct (isLoading w) eqn:Hl; simpl.
      * right. split; [auto | reflexivity].
      * destruct (isLocChanged (Some u) (lastCalcLocation w)) eqn:Hc.
        -- left. exists u. repeat split; try reflexivity.
           js_unfold. simpl. rewrite Hu. reflexivity.
        -- right. split; [auto | reflexivity].
    + right. split; [auto | reflexivity].
  - right. split; [auto | reflexivity].
Qed.

Lemma updateRoutes_start_idle (w : World) :
  isLoading w = true \/ isLocChanged (userLocation w) (lastCalcLocation w) = false ->
  updateRoutes_start w = (Normal None, w).
Proof.
  intros H. destruct (updateRoutes_start_cases w) as [(u & _ & _ & Hl & Hc & _) | [_ E]].
  - destruct H; congruence.
  - exact E.
Qed.

Lemma curationCalls_app (w : World) (e : Effect) (es : list Effect) :
  effects w = es ++ [e] ->
  curationCalls w =
    flat_map (fun e => match e with Call_curateDestinations p => [p] | _ => [] end) es ++
    match e with Call_curateDestinations p => [p] | _ => [] end.
Proof.
  intros H. unfold curationCalls. rewrite H, flat_map_app. simpl. now rewrite app_nil_r.
Qed.

Lemma withEstimate_route (U : Coordinates) (elev : option float) (D : EnrichedDestination) :
  exists r,
    route (withEstimate U elev D) = Some r /\
    distance r = (getDistance U (coordinates D) * 1.35)%float /\
    duration r = (getDistance U (coordinates D) * 1.35 / 1.4)%float /\
    isEstimate r = true.
Proof. unfold withEstimate. simpl. eexists. repeat split. Qed.

(** C1.  When the re-curation pipeline runs for a user at position [U],
    the list it submits to the curation service holds, for every
    destination [D] of the current list and in the same order, a copy of
    [D] whose route has distance [getDistance U D.coordinates * 1.35] and
    duration equal to that product divided by [1.4], flagged as an
    estimate. *)
Theorem estimate_distance_and_duration :
  forall (w w' : World) (fr : CurationFrame),
    updateRoutes_start w = (Normal (Some fr), w') ->
    exists U places,
      userLocation w = Some U /\
      effects w' = effects w ++ [Call_curateDestinations places] /\
      Forall2
        (fun D E =>
           exists r,
             route E = Some r /\
             distance r = (getDistance U (coordinates D) * 1.35)%float /\
             duration r = (getDistance U (coordinates D) * 1.35 / 1.4)%float /\
             isEstimate r = true)
        (destinations w) places.
Proof.
  intros w w' fr H.
  destruct (updateRoutes_start_cases w) as [(u & Hu & _ & _ & _ & E) | [_ E]];
    rewrite E in H; [| discriminate].
  inversion H; subst; clear H. simpl.
  exists u, (map (withEstimate u (userElevation w)) (destinations w)).
  split; [exact Hu | split; [reflexivity |]].
  clear E. induction (destinations w) as [| D ds IH]; simpl; constructor; auto.
  apply withEstimate_route.
Qed.

(** *** The effect inside the event loop *)

Lemma runUpdateRoutes_cases (w : World) (sys : System) :
  (exists u,
      userLocation w = Some u /\
      Nat.ltb 0 (List.length (destinations w)) = true /\
      isLoading w = false /\
      isLocChanged (userLocation w) (lastCalcLocation w) = true /\
      runUpdateRoutes w sys =
        mkSystem
          (mkWorld (userLocation w) (userElevation w) (destinations w) (selectedDestination w)
             true (sidebarOpen w) (isMobile w) (Some u) (mapCurrent w)
             (effects w ++
                [Call_curateDestinations
                   (map (withEstimate u (userElevation w)) (destinations w))]))
          (curationsInFlight sys ++ [mkCurationFrame (selectedDestination w)])
          (routesInFlight sys))
  \/
  ((userLocation w = None \/ Nat.ltb 0 (List.length (destinations w)) = false \/
    isLoading w = true \/ isLocChanged (userLocation w) (lastCalcLocation w) = false) /\
   runUpdateRoutes w sys = mkSystem w (curationsInFlight sys) (routesInFlight sys)).
Proof.
  unfold runUpdateRoutes.
  destruct (updateRoutes_start_cases w) as [(u & Hu & Hn & Hl & Hc & E) | [H E]]; rewrite E.
  - left. exists u. repeat split; assumption.
  - right. split; [assumption | reflexivity].
Qed.

Lemma app_one_neq {A} (l : list A) (x : A) : l ++ [x] <> l.
Proof.
  intros H. apply (f_equal (@List.length A)) in H.
  rewrite length_app in H. simpl in H. lia.
Qed.

Lemma extract_last {A} (l : list A) (x : A) :
  extract (List.length l) (l ++ [x]) = Some (x, l).
Proof.
  induction l as [| y l IH]; simpl; [reflexivity |]. now rewrite IH.
Qed.

(** A movement event either leaves everything but the moved value alone
    or starts exactly one re-curation. *)
Lemma movement_cases (ev : Event) (sys : System) :
  isMovement ev = true ->
  (curationsInFlight (step ev sys) = curationsInFlight sys /\
   effects (world (step ev sys)) = effects (world sys) /\
   destinations (world (step ev sys)) = destinations (world sys) /\
   isLoading (world (step ev sys)) = isLoading (world sys) /\
   lastCalcLocation (world (step ev sys)) = lastCalcLocation (world sys))
  \/
  (exists u places,
     locationAfter ev (world sys) = Some u /\
     destinations (world sys) <> [] /\
     isLoading (world sys) = false /\
     isLocChanged (Some u) (lastCalcLocation (world sys)) = true /\
     curationsInFlight (step ev sys) =
       curationsInFlight sys ++ [mkCurationFrame (selectedDestination (world sys))] /\
     effects (world (step ev sys)) = effects (world sys) ++ [Call_curateDestinations places] /\
     destinations (world (step ev sys)) = destinations (world sys) /\
     isLoading (world (step ev sys)) = true /\
     lastCalcLocation (world (step ev sys)) = Some u).
Proof.
  assert (Hne : forall l : list EnrichedDestination,
             Nat.ltb 0 (List.length l) = true -> l <> []).
  { intros [|] H; [discriminate | congruence]. }
  destruct ev as [c | e | | | | | ]; try discriminate; intros _; simpl.
  - match goal with |- context [runUpdateRoutes ?w _] =>
      destruct (runUpdateRoutes_cases w sys) as [(u & Hu & Hn & Hl & Hc & E) | [_ E]] end;
      rewrite E; simpl in *.
    + right. exists c, (map (withEstimate u (userElevation (world sys))) (destinations (world sys))).
      inversion Hu; subst. repeat split; auto.
    + left. repeat split; reflexivity.
  - destruct (Object_is (userElevation (world sys)) (Some e)).
    + left. repeat split; reflexivity.
    + match goal with |- context [runUpdateRoutes ?w _] =>
        destruct (runUpdateRoutes_cases w sys) as [(u & Hu & Hn & Hl & Hc & E) | [_ E]] end;
        rewrite E; simpl in *.
      * right. exists u, (map (withEstimate u (Some e)) (destinations (world sys))).
        rewrite Hu in *. repeat split; auto.
      * left. repeat split; reflexivity.
Qed.

(** C5.  Let the last recompute have been made at [l], and let a change of
    the user location or of the user elevation leave the user at [u].  If
    [getDistance u l <= 20], no re-curation starts (no frame is added, no
    curation request is sent) and the destination list stays as it was;
    and whenever the change does start a re-curation,
    [getDistance u l > 20]. *)
Theorem recuration_needs_displacement :
  forall (ev : Event) (sys : System) (l u : Coordinates),
    isMovement ev = true ->
    lastCalcLocation (world sys) = Some l ->
    locationAfter ev (world sys) = Some u ->
    ((getDistance u l <=? 20)%float = true ->
       curationsInFlight (step ev sys) = curationsInFlight sys /\
       curationCalls (world (step ev sys)) = curationCalls (world sys) /\
       destinations (world (step ev sys)) = destinations (world sys)) /\
    (curationsInFlight (step ev sys) <> curationsInFlight sys ->
       (20 <? getDistance u l)%float = true).
Proof.
  intros ev sys l u Hev Hl Hu.
  destruct (movement_cases ev sys Hev)
    as [(Hc & He & Hd & _) | (u' & places & Hu' & _ & _ & Hch & Hc & _)].
  - split.
    + intros _. unfold curationCalls. rewrite He. auto.
    + intros H. contradiction.
  - rewrite Hu in Hu'. inversion Hu'; subst u'.
    rewrite Hl in Hch. simpl in Hch. split.
    + intros Hle. apply leb_not_ltb in Hle. congruence.
    + intros _. exact Hch.
Qed.

(** While the loading flag is set, movement events start nothing, however
    many of them arrive. *)
Lemma loading_blocks_recuration (evs : list Event) :
  forall sys : System,
    forallb isMovement evs = true ->
    isLoading (world sys) = true ->
    curationsInFlight (run evs sys) = curationsInFlight sys /\
    curationCalls (world (run evs sys)) = curationCalls (world sys) /\
    isLoading (world (run evs sys)) = true.
Proof.
  induction evs as [| ev evs IH]; intros sys Hall Hl; simpl in *.
  - auto.
  - apply andb_true_iff in Hall as [Hev Hall].
    destruct (movement_cases ev sys Hev)
      as [(Hc & He & Hd & Hl' & _) | (u' & places & _ & _ & Hl' & _)]; [| congruence].
    destruct (IH (step ev sys) Hall) as (A & B & C); [congruence |].
    unfold run in *. rewrite A, B, C. unfold curationCalls. rewrite He. auto.
Qed.

(** *** The continuation of [updateRoutes] *)

Lemma updateRoutes_resume_rejected (fr : CurationFrame) (e : Error) (w : World) :
  updateRoutes_resume fr (Rejected e) w =
    (Normal tt,
     mkWorld (userLocation w) (userElevation w) (destinations w) (selectedDestination w)
       false (sidebarOpen w) (isMobile w) (lastCalcLocation w) (mapCurrent w)
       (effects w ++ [ConsoleError e])).
Proof. reflexivity. Qed.

(** C7.  When the curation request fails, the continuation of
    [updateRoutes] ends normally (the error is swallowed), the error is
    logged with [console.error], and the destination list, like the
    selection, is exactly what it was before the failure; only the loading
    flag is cleared. *)
Theorem curation_failure_keeps_destinations :
  forall (fr : CurationFrame) (e : Error) (w : World),
    fst (updateRoutes_resume fr (Rejected e) w) = Normal tt /\
    effects (snd (updateRoutes_resume fr (Rejected e) w)) = effects w ++ [ConsoleError e] /\
    destinations (snd (updateRoutes_resume fr (Rejected e) w)) = destinations w /\
    selectedDestination (snd (updateRoutes_resume fr (Rejected e) w)) = selectedDestination w /\
    isLoading (snd (updateRoutes_resume fr (Rejected e) w)) = false.
Proof.
  intros fr e w. rewrite updateRoutes_resume_rejected. simpl. repeat split.
Qed.

(** C9.  Suppose a move of the user to [u] starts a re-curation.  Then
    the recorded last-recompute location is already [u] while the request
    is in flight, and it is still [u] after the request has failed; the
    failed attempt is no longer in flight, and the next move, to [u'],
    starts a re-curation exactly when [getDistance u' u > 20]: the
    reference point is the failed attempt's location. *)
Theorem failed_attempt_moves_reference_point :
  forall (sys : System) (u : Coordinates) (e : Error),
    let n := List.length (curationsInFlight sys) in
    let sys1 := step (UserLocationChanged u) sys in
    let sys2 := step (CurationSettled n (Rejected e)) sys1 in
    List.length (curationsInFlight sys1) = S n ->
    lastCalcLocation (world sys1) = Some u /\
    lastCalcLocation (world sys2) = Some u /\
    curationsInFlight sys2 = curationsInFlight sys /\
    destinations (world sys2) = destinations (world sys) /\
    forall u' : Coordinates,
      List.length (curationsInFlight (step (UserLocationChanged u') sys2)) = S n <->
      (20 <? getDistance u' u)%float = true.
Proof.
  intros sys u e n sys1 sys2 Hstart.
  destruct (movement_cases (UserLocationChanged u) sys eq_refl)
    as [(Hc & _) | (u0 & places & Hu0 & Hne & _ & _ & Hc & He & Hd & Hl & Hlast)].
  { fold sys1 in Hc. rewrite Hc in Hstart. subst n. lia. }
  simpl in Hu0. inversion Hu0; subst u0. fold sys1 in Hc, He, Hd, Hl, Hlast.
  assert (E2 : sys2 =
    mkSystem (snd (unhandled (updateRoutes_resume
                 (mkCurationFrame (selectedDestination (world sys))) (Rejected e) (world sys1))))
             (curationsInFlight sys) (routesInFlight sys1)).
  { unfold sys2. simpl. rewrite Hc. subst n. rewrite extract_last. reflexivity. }
  rewrite updateRoutes_resume_rejected in E2. simpl in E2.
  split; [exact Hlast |]. rewrite E2; simpl.
  split; [exact Hlast |]. split; [reflexivity |]. split; [exact Hd |].
  intros u'.
  destruct (movement_cases (UserLocationChanged u') sys2 eq_refl)
    as [(Hc3 & _ & _ & Hl3 & _) | (u3 & places3 & Hu3 & _ & _ & Hch3 & Hc3 & _)];
    rewrite E2 in *; simpl in *.
  - rewrite Hc3. split; [subst n; lia |]. intros Hgt. exfalso.
    match type of Hc3 with curationsInFlight (runUpdateRoutes ?w ?s) = _ =>
      destruct (runUpdateRoutes_cases w s) as [(u4 & _ & _ & _ & _ & E) | [Hno E]] end.
    + rewrite E in Hc3. simpl in Hc3. exact (app_one_neq _ _ Hc3).
    + simpl in Hno. rewrite Hlast, Hd in Hno. simpl in Hno.
      destruct Hno as [Hno | [Hno | [Hno | Hno]]]; try congruence.
      destruct (destinations (world sys)); [contradiction | discriminate].
  - inversion Hu3; subst u3. rewrite Hlast in Hch3. simpl in Hch3.
    rewrite Hc3, length_app. simpl. split; [intros _; exact Hch3 | intros _; subst n; lia].
Qed.

(** *** [handleSelectDestination] *)

Lemma routeCalls_snoc (es : list Effect) (e : Effect) :
  filter (fun e => match e with Call_getWalkingRoute _ _ _ _ _ _ _ => true | _ => false end)
         (es ++ [e]) =
  filter (fun e => match e with Call_getWalkingRoute _ _ _ _ _ _ _ => true | _ => false end) es
  ++ (if match e with Call_getWalkingRoute _ _ _ _ _ _ _ => true | _ => false end
      then [e] else []).
Proof. rewrite filter_app. simpl. destruct e; reflexivity. Qed.




(** C10.  A selection made through a callback whose [userLocation] is
    null (with the map in place) marks the destination as selected, moves
    the camera to it, and does nothing else to the outside world: no
    routing request is sent and none is in flight afterwards, and the
    destination list and the loading flag are untouched.  This holds
    whatever the destination's route is. *)
Theorem select_without_location :
  forall (cl : SelectClosure) (d : EnrichedDestination) (sys : System),
    cl_userLocation cl = None ->
    mapCurrent (world sys) = true ->
    selectedDestination (world (step (MarkerClick cl d) sys)) = Some d /\
    effects (world (step (MarkerClick cl d) sys)) =
      effects (world sys) ++ [FlyTo (coordinates d) 14] /\
    routeCalls (world (step (MarkerClick cl d) sys)) = routeCalls (world sys) /\
    routesInFlight (step (MarkerClick cl d) sys) = routesInFlight sys /\
    destinations (world (step (MarkerClick cl d) sys)) = destinations (world sys) /\
    isLoading (world (step (MarkerClick cl d) sys)) = isLoading (world sys).
Proof.
  intros cl d sys Hloc Hmap. simpl. unfold runSelect, routeCalls. js_unfold.
  rewrite Hloc, Hmap. destruct (cl_isMobile cl); simpl;
    rewrite routeCalls_snoc; simpl; rewrite app_nil_r; repeat split.
Qed.

(** C4, what the code does.  When the walking-route promise rejects, the
    continuation of [handleSelectDestination] clears the loading flag in
    its [finally] and then lets the error go on: it completes with a
    throw.  Nothing else of the state is written. *)
Theorem select_rejection_is_not_caught :
  forall (fr : RouteFrame) (e : Error) (w : World),
    handleSelectDestination_resume fr (Rejected e) w =
      (Throw e,
       mkWorld (userLocation w) (userElevation w) (destinations w) (selectedDestination w)
         false (sidebarOpen w) (isMobile w) (lastCalcLocation w) (mapCurrent w) (effects w)).
Proof. reflexivity. Qed.

(** A request that resolves with no route ([null]) is handled quietly. *)
Lemma select_null_route_keeps_state (fr : RouteFrame) (w : World) :
  handleSelectDestination_resume fr (Resolved None) w =
    (Normal tt,
     mkWorld (userLocation w) (userElevation w) (destinations w) (selectedDestination w)
       false (sidebarOpen w) (isMobile w) (lastCalcLocation w) (mapCurrent w) (effects w)).
Proof. reflexivity. Qed.

(** *** [handleCategoryFilter] *)

(** C8.  The category filter, in either copy of the component, installs
    exactly the members of the seed list whose category is the chosen one
    (in seed order) and clears the selection. *)
Theorem category_filter_installs_seed_subset :
  forall (t : Category) (w : World),
    fst (handleCategoryFilter t w) = Normal tt /\
    destinations (snd (handleCategoryFilter t w)) =
      filter (fun p => Category_eqb (category p) t) FEATURED_CAFES /\
    selectedDestination (snd (handleCategoryFilter t w)) = None /\
    fst (handleCategoryFilter_part001 t w) = Normal tt /\
    destinations (snd (handleCategoryFilter_part001 t w)) =
      filter (fun p => Category_eqb (category p) t) FEATURED_CAFES /\
    selectedDestination (snd (handleCategoryFilter_part001 t w)) = None /\
    (forall p : EnrichedDestination,
       In p (destinations (snd (handleCategoryFilter t w))) <->
       In p FEATURED_CAFES /\ category p = t).
Proof.
  intros t w.
  assert (Hc : forall a b, Category_eqb a b = true <-> a = b).
  { intros [] []; simpl; split; congruence. }
  assert (H1 : snd (handleCategoryFilter t w) =
    mkWorld (userLocation w) (userElevation w)
      (filter (fun p => Category_eqb (category p) t) FEATURED_CAFES) None (isLoading w)
      (if isMobile w then sidebarOpen w else true) (isMobile w) (lastCalcLocation w)
      (mapCurrent w) (effects w)).
  { js_unfold. destruct (isMobile w); reflexivity. }
  rewrite H1. simpl.
  split; [js_unfold; destruct (isMobile w); reflexivity |].
  split; [reflexivity |]. split; [reflexivity |].
  split; [| split; [| split]].
  - js_unfold. destruct (isMobile w), (mapCurrent w);
      destruct (filter (fun p => Category_eqb (category p) t) FEATURED_CAFES); reflexivity.
  - js_unfold. destruct (isMobile w), (mapCurrent w);
      destruct (filter (fun p => Category_eqb (category p) t) FEATURED_CAFES); reflexivity.
  - js_unfold. destruct (isMobile w), (mapCurrent w);
      destruct (filter (fun p => Category_eqb (category p) t) FEATURED_CAFES); reflexivity.
  - intros p. rewrite filter_In, Hc. reflexivity.
Qed.

(** *** [Array_sort] *)

Lemma sort_insert_perm {A} (cmp : A -> A -> float) (x : A) (l : list A) :
  Permutation (sort_insert cmp x l) (x :: l).
Proof.
  induction l as [| y t IH]; simpl; [reflexivity |].
  destruct (goesBefore cmp y x); [| reflexivity].
  rewrite IH. apply perm_swap.
Qed.

Lemma Array_sort_perm {A} (cmp : A -> A -> float) (l : list A) :
  Permutation (Array_sort cmp l) l.
Proof.
  induction l as [| x t IH]; simpl; [reflexivity |].
  rewrite sort_insert_perm. now constructor.
Qed.

(** For a comparator that agrees with an ordering [R], the result is
    sorted by [R]. *)
Lemma Array_sort_Sorted {A} (cmp : A -> A -> float) (R : A -> A -> Prop) :
  (forall x y, goesBefore cmp y x = true -> R y x) ->
  (forall x y, goesBefore cmp y x = false -> R x y) ->
  forall l, Sorted R (Array_sort cmp l).
Proof.
  intros Hlt Hge.
  assert (Hins : forall x l, Sorted R l -> Sorted R (sort_insert cmp x l)).
  { intros x l. induction l as [| y t IH]; simpl; intros Hs.
    - repeat constructor.
    - destruct (goesBefore cmp y x) eqn:E.
      + inversion Hs as [| ? ? Hs' Hhd]; subst. constructor; [now apply IH |].
        destruct t as [| z t]; simpl.
        * constructor. now apply Hlt.
        * destruct (goesBefore cmp z x); constructor.
          -- now inversion Hhd.
          -- now apply Hlt.
      + constructor; [assumption |]. constructor. now apply Hge. }
  induction l as [| x t IH]; simpl; [constructor | now apply Hins].
Qed.

Lemma updateRoutes_resume_destinations (fr : CurationFrame)
    (curated : list EnrichedDestination) (w : World) :
  destinations (snd (updateRoutes_resume fr (Resolved curated) w)) =
    Array_sort byDistance curated.
Proof.
  js_unfold. simpl. destruct (cf_selectedDestination fr) as [sel |]; [| reflexivity].
  destruct (find _ _); reflexivity.
Qed.

(** ** Further properties of the component *)

(** *** Floats: the sign of a difference *)

Definition SFnegative (f : spec_float) : bool := SFltb f (S754_zero false).

Lemma binary_round_false_not_negative (m : positive) (e : Z) :
  SFnegative (binary_round prec emax false m e) = false.
Proof.
  unfold binary_round, binary_round_aux.
  destruct (shl_align m e _) as [mz ez].
  destruct (shr_fexp prec emax (Z.pos mz) ez loc_Exact) as [mrs' e'].
  destruct (shr_fexp prec emax _ e' loc_Exact) as [mrs'' e''].
  destruct (shr_m mrs''); try reflexivity.
  destruct (Z.leb e'' (emax - prec)); reflexivity.
Qed.

Lemma binary_normalize_negative (m : Z) (e : Z) :
  SFnegative (binary_normalize prec emax m e false) = true -> (m < 0)%Z.
Proof.
  destruct m as [| p | p]; simpl.
  - discriminate.
  - rewrite binary_round_false_not_negative. discriminate.
  - intros _. reflexivity.
Qed.

Lemma binary_normalize_nonneg (m : Z) (e : Z) :
  (0 <= m)%Z -> SFnegative (binary_normalize prec emax m e false) = false.
Proof.
  destruct m as [| p | p]; simpl; intros H.
  - reflexivity.
  - apply binary_round_false_not_negative.
  - exfalso. apply H. reflexivity.
Qed.

Lemma SFsub_negative_asym (x y : spec_float) :
  SFnegative (SF64sub x y) = true -> SFnegative (SF64sub y x) = false.
Proof.
  unfold SF64sub.
  destruct x as [sx | sx | | sx mx ex], y as [sy | sy | | sy my ey];
    try (repeat match goal with s : bool |- _ => destruct s end;
         vm_compute; congruence).
  simpl. intros H. apply binary_normalize_negative in H.
  apply binary_normalize_nonneg.
  rewrite (Z.min_comm ey ex). lia.
Qed.

Lemma sub_negative_asym (a b : float) :
  (a - b <? 0)%float = true -> (b - a <? 0)%float = false.
Proof.
  rewrite !ltb_spec, !sub_spec.
  change (Prim2SF 0) with (S754_zero false).
  apply SFsub_negative_asym.
Qed.

(** *** More on the sort of the curated list (App.tsx 282) *)

(** [b] is not ordered strictly before [a]. *)
Definition notBefore {A} (cmp : A -> A -> float) (a b : A) : Prop :=
  goesBefore cmp b a = false.

Lemma Array_sort_fixed {A} (cmp : A -> A -> float) (l : list A) :
  Sorted (notBefore cmp) l -> Array_sort cmp l = l.
Proof.
  induction l as [| x t IH]; intros Hs; [reflexivity |].
  inversion Hs as [| ? ? Hs' Hhd]; subst. simpl. rewrite (IH Hs').
  destruct t as [| y t]; [reflexivity |]. simpl.
  inversion Hhd as [| ? ? Hxy]; subst. unfold notBefore in Hxy. now rewrite Hxy.
Qed.

Lemma byDistance_asym (a b : EnrichedDestination) :
  goesBefore byDistance a b = true -> goesBefore byDistance b a = false.
Proof. unfold goesBefore, byDistance. apply sub_negative_asym. Qed.

Lemma Array_sort_byDistance_sorted (l : list EnrichedDestination) :
  Sorted (notBefore byDistance) (Array_sort byDistance l).
Proof.
  apply Array_sort_Sorted; unfold notBefore.
  - intros x y H. now apply byDistance_asym.
  - intros x y H. exact H.
Qed.

(** X1.  The list installed after a successful curation holds exactly the
    entries of the response (none lost, none doubled), and in it no entry
    is directly followed by one that the comparator orders strictly before
    it. *)
Theorem curation_installs_sorted_permutation :
  forall (fr : CurationFrame) (curated : list EnrichedDestination) (w : World),
    Permutation (destinations (snd (updateRoutes_resume fr (Resolved curated) w))) curated /\
    Sorted (notBefore byDistance)
      (destinations (snd (updateRoutes_resume fr (Resolved curated) w))).
Proof.
  intros fr curated w. rewrite updateRoutes_resume_destinations. split.
  - apply Array_sort_perm.
  - apply Array_sort_byDistance_sorted.
Qed.

(** X2.  Sorting is idempotent: a response that is the list installed by an
    earlier curation is installed as it is. *)
Theorem curation_sort_idempotent :
  forall (fr fr' : CurationFrame) (curated : list EnrichedDestination) (w w' : World),
    destinations
      (snd (updateRoutes_resume fr'
              (Resolved (destinations (snd (updateRoutes_resume fr (Resolved curated) w)))) w'))
    = destinations (snd (updateRoutes_resume fr (Resolved curated) w)).
Proof.
  intros fr fr' curated w w'. rewrite !updateRoutes_resume_destinations.
  apply Array_sort_fixed, Array_sort_byDistance_sorted.
Qed.

Lemma infinite_keys_sorted (l : list EnrichedDestination) :
  (forall d, In d l -> distanceOrInfinity d = infinity) ->
  Sorted (notBefore byDistance) l.
Proof.
  induction l as [| x t IH]; intros H; constructor.
  - apply IH. intros d Hd. apply H. now right.
  - destruct t as [| y t]; constructor.
    unfold notBefore, goesBefore, byDistance.
    rewrite (H x), (H y); [reflexivity | right; now left | now left].
Qed.

(** X3.  Entries without a usable distance (no route, or a distance of [0] or
    [NaN]) are ties for the comparator: a response made of such entries
    only is installed in the order in which it arrived. *)
Theorem unranked_response_keeps_order :
  forall (fr : CurationFrame) (curated : list EnrichedDestination) (w : World),
    (forall d, In d curated -> distanceOrInfinity d = infinity) ->
    destinations (snd (updateRoutes_resume fr (Resolved curated) w)) = curated.
Proof.
  intros fr curated w H. rewrite updateRoutes_resume_destinations.
  now apply Array_sort_fixed, infinite_keys_sorted.
Qed.

(** *** Re-resolving the selection after a curation (App.tsx 284-287) *)

Lemma updateRoutes_resume_selection (fr : CurationFrame)
    (curated : list EnrichedDestination) (w : World) :
  selectedDestination (snd (updateRoutes_resume fr (Resolved curated) w)) =
    match cf_selectedDestination fr with
    | Some sel =>
        match find (fun d => String.eqb (id d) (id sel)) (Array_sort byDistance curated) with
        | Some updated => Some updated
        | None => selectedDestination w
        end
    | None => selectedDestination w
    end.
Proof.
  js_unfold. simpl. destruct (cf_selectedDestination fr) as [sel |]; [| reflexivity].
  destruct (find _ _); reflexivity.
Qed.

(** X4.  After a successful curation the selection is decided by the
    destination that was selected when the re-curation started: if the
    response has an entry with its id, the selection becomes an entry of
    the installed list with that id, whatever is selected by now; if the
    response has none, or nothing was selected then, the selection stays
    as it is. *)
Theorem curation_reresolves_selection :
  forall (fr : CurationFrame) (curated : list EnrichedDestination) (w : World),
    (forall sel,
       cf_selectedDestination fr = Some sel ->
       (exists d, In d curated /\ id d = id sel) ->
       exists updated,
         selectedDestination (snd (updateRoutes_resume fr (Resolved curated) w)) = Some updated /\
         In updated (destinations (snd (updateRoutes_resume fr (Resolved curated) w))) /\
         In updated curated /\
         id updated = id sel) /\
    (forall sel,
       cf_selectedDestination fr = Some sel ->
       (forall d, In d curated -> id d <> id sel) ->
       selectedDestination (snd (updateRoutes_resume fr (Resolved curated) w)) =
         selectedDestination w) /\
    (cf_selectedDestination fr = None ->
       selectedDestination (snd (updateRoutes_resume fr (Resolved curated) w)) =
         selectedDestination w).
Proof.
  intros fr curated w.
  rewrite updateRoutes_resume_selection, updateRoutes_resume_destinations.
  split; [| split].
  - intros sel Hsel (d & Hd & Hid). rewrite Hsel.
    destruct (find (fun d => String.eqb (id d) (id sel)) (Array_sort byDistance curated))
      as [updated |] eqn:Hf.
    + apply find_some in Hf as [Hin Heq]. apply String.eqb_eq in Heq.
      exists updated. repeat split; auto.
      apply (Permutation_in _ (Array_sort_perm byDistance curated) Hin).
    + exfalso.
      assert (Hin : In d (Array_sort byDistance curated)).
      { apply (Permutation_in _ (Permutation_sym (Array_sort_perm byDistance curated)) Hd). }
      pose proof (find_none _ _ Hf d Hin) as Hn. simpl in Hn.
      rewrite Hid, String.eqb_refl in Hn. discriminate.
  - intros sel Hsel Hno. rewrite Hsel.
    destruct (find (fun d => String.eqb (id d) (id sel)) (Array_sort byDistance curated))
      as [updated |] eqn:Hf; [| reflexivity].
    apply find_some in Hf as [Hin Heq]. apply String.eqb_eq in Heq.
    exfalso. apply (Hno updated); [| exact Heq].
    apply (Permutation_in _ (Array_sort_perm byDistance curated) Hin).
  - intros Hsel. now rewrite Hsel.
Qed.

(** *** Installing a route in the list (App.tsx 303-305 and 323-325) *)

(** [prev.map(d => d.id === key ? updated : d)] *)
Definition replaceById (key : string) (updated : EnrichedDestination)
    (l : list EnrichedDestination) : list EnrichedDestination :=
  map (fun d => if String.eqb (id d) key then updated else d) l.

Lemma replaceById_ids (key : string) (updated : EnrichedDestination)
    (l : list EnrichedDestination) :
  id updated = key -> map id (replaceById key updated l) = map id l.
Proof.
  intros Hu. induction l as [| d t IH]; simpl; [reflexivity |].
  rewrite IH. destruct (String.eqb (id d) key) eqn:E; [| reflexivity].
  apply String.eqb_eq in E. congruence.
Qed.

Lemma replaceById_hit (key : string) (updated d : EnrichedDestination)
    (l : list EnrichedDestination) :
  In d (replaceById key updated l) -> id d = key -> id updated = key -> d = updated.
Proof.
  intros Hin Hd Hu. apply in_map_iff in Hin as (d0 & E & _).
  destruct (String.eqb (id d0) key) eqn:E0; [congruence |].
  apply String.eqb_neq in E0. congruence.
Qed.

Lemma replaceById_miss (key : string) (updated d : EnrichedDestination)
    (l : list EnrichedDestination) :
  id d <> key -> id updated = key -> (In d (replaceById key updated l) <-> In d l).
Proof.
  intros Hd Hu. unfold replaceById. rewrite in_map_iff. split.
  - intros (d0 & E & Hin). destruct (String.eqb (id d0) key); congruence.
  - intros Hin. exists d. split; [| exact Hin].
    apply String.eqb_neq in Hd. now rewrite Hd.
Qed.

Lemma fitRoute_effects_only (isMob : bool) (r : Route) (w : World) :
  fst (fitRoute isMob r w) = Normal tt /\
  userLocation (snd (fitRoute isMob r w)) = userLocation w /\
  userElevation (snd (fitRoute isMob r w)) = userElevation w /\
  destinations (snd (fitRoute isMob r w)) = destinations w /\
  selectedDestination (snd (fitRoute isMob r w)) = selectedDestination w /\
  isLoading (snd (fitRoute isMob r w)) = isLoading w /\
  lastCalcLocation (snd (fitRoute isMob r w)) = lastCalcLocation w.
Proof.
  js_unfold. destruct (geometry r); [destruct (mapCurrent w) |]; simpl; repeat split.
Qed.

Lemma select_resume_destinations (fr : RouteFrame) (resp : Settled (option Route)) (w : World) :
  destinations (snd (handleSelectDestination_resume fr resp w)) =
    match resp with
    | Resolved (Some real) =>
        replaceById (id (rf_destination fr)) (with_route (rf_destination fr) real)
                    (destinations w)
    | _ => destinations w
    end.
Proof.
  destruct resp as [[real |] | e]; try reflexivity.
  js_unfold. simpl. destruct (geometry real); [destruct (mapCurrent w) |]; reflexivity.
Qed.

(** X7.  A walking-route response never adds, removes or reorders
    destinations: the ids of the list, in order, are what they were,
    whatever the response.  When a route arrives, every entry with the id of
    the selected destination becomes the destination as it was passed to
    the handler, with the new route; the other entries are untouched. *)
Theorem route_response_keeps_list_shape :
  forall (fr : RouteFrame) (resp : Settled (option Route)) (w : World),
    map id (destinations (snd (handleSelectDestination_resume fr resp w))) =
      map id (destinations w) /\
    (forall real d,
       resp = Resolved (Some real) ->
       In d (destinations (snd (handleSelectDestination_resume fr resp w))) ->
       (id d = id (rf_destination fr) -> d = with_route (rf_destination fr) real) /\
       (id d <> id (rf_destination fr) -> In d (destinations w))).
Proof.
  intros fr resp w. rewrite select_resume_destinations. split.
  - destruct resp as [[real |] | e]; try reflexivity.
    now apply replaceById_ids.
  - intros real d -> Hin. split; intros Hid.
    + now apply (replaceById_hit _ _ _ _ Hin).
    + exact (proj1 (replaceById_miss _ (with_route (rf_destination fr) real) _
                      (destinations w) Hid eq_refl) Hin).
Qed.

(** *** [handleUpdateRoute] *)

Ltac detour_unfold :=
  unfold handleUpdateRoute_start, handleUpdateRoute_resume, handleBack, recenter,
    checkMobile, onPosition, onPositionError, setIsMobile in *; js_unfold.

Lemma handleUpdateRoute_start_cases (destId : string) (dist : float)
    (roundTrip scenic : bool) (w : World) :
  (exists u dest,
      userLocation w = Some u /\
      find (fun d => String.eqb (id d) destId) (destinations w) = Some dest /\
      handleUpdateRoute_start destId dist roundTrip scenic w =
        (Normal (Some (mkDetourRequest u (coordinates dest) dist roundTrip scenic
                         (preferredWaypoints dest) (linkedScenicRouteId dest)
                         (userElevation w) (elevation dest),
                       mkDetourFrame destId dest (isMobile w))), w))
  \/
  ((userLocation w = None \/
    find (fun d => String.eqb (id d) destId) (destinations w) = None) /\
   handleUpdateRoute_start destId dist roundTrip scenic w = (Normal None, w)).
Proof.
  unfold handleUpdateRoute_start, ret.
  destruct (userLocation w) as [u |]; [| right; auto].
  destruct (find _ _) as [dest |] eqn:Hf; [| right; auto].
  left. exists u, dest. auto.
Qed.

Lemma page_eta (p : Page) : withWorld (pageWorld p) p = p.
Proof. destruct p as [[w c r] d dc g h]. reflexivity. Qed.

(** X10.  A detour asked for while the user location is unknown, or for an id
    that is not in the list, does nothing at all: no request, no change of
    state. *)
Theorem detour_needs_location_and_listed_id :
  forall (destId : string) (dist : float) (roundTrip scenic : bool) (p : Page),
    userLocation (pageWorld p) = None \/
    (forall d, In d (destinations (pageWorld p)) -> id d <> destId) ->
    pageStep (UpdateRoute destId dist roundTrip scenic) p = p.
Proof.
  intros destId dist roundTrip scenic p H. simpl.
  destruct (handleUpdateRoute_start_cases destId dist roundTrip scenic (pageWorld p))
    as [(u & dest & Hu & Hf & E) | [_ E]]; rewrite E; simpl.
  - exfalso. destruct H as [H | H]; [congruence |].
    apply find_some in Hf as [Hin Heq]. apply String.eqb_eq in Heq.
    exact (H dest Hin Heq).
  - apply page_eta.
Qed.

Lemma detour_resume_world (fr : DetourFrame) (resp : Settled (option Route)) (w : World) :
  let w' := snd (unhandled (handleUpdateRoute_resume fr resp w)) in
  userLocation w' = userLocation w /\
  userElevation w' = userElevation w /\
  isLoading w' = isLoading w /\
  lastCalcLocation w' = lastCalcLocation w /\
  destinations w' =
    match resp with
    | Resolved (Some r) => replaceById (df_destId fr) (with_route (df_dest fr) r) (destinations w)
    | _ => destinations w
    end /\
  selectedDestination w' =
    match resp with
    | Resolved (Some r) => Some (with_route (df_dest fr) r)
    | _ => selectedDestination w
    end.
Proof.
  destruct resp as [[r |] | e]; simpl; try (repeat split; reflexivity).
  detour_unfold. simpl. destruct (geometry r); [destruct (mapCurrent w) |]; simpl;
    repeat split.
Qed.

(** X13.  A detour, from the request to the settling of its promise, never
    touches the loading flag, the last-recompute location, the user
    location or the requests of the other two kinds: it neither blocks nor
    starts a re-curation, and it cannot clear the flag of a request that
    is still in flight. *)
Theorem detour_leaves_loading_alone :
  forall (p : Page),
    (forall destId dist roundTrip scenic,
       pageWorld (pageStep (UpdateRoute destId dist roundTrip scenic) p) = pageWorld p /\
       base (pageStep (UpdateRoute destId dist roundTrip scenic) p) = base p) /\
    (forall n r,
       isLoading (pageWorld (pageStep (DetourSettled n r) p)) = isLoading (pageWorld p) /\
       lastCalcLocation (pageWorld (pageStep (DetourSettled n r) p)) =
         lastCalcLocation (pageWorld p) /\
       userLocation (pageWorld (pageStep (DetourSettled n r) p)) = userLocation (pageWorld p) /\
       curationsInFlight (base (pageStep (DetourSettled n r) p)) = curationsInFlight (base p) /\
       routesInFlight (base (pageStep (DetourSettled n r) p)) = routesInFlight (base p)).
Proof.
  intros p. split.
  - intros destId dist roundTrip scenic. simpl.
    destruct (handleUpdateRoute_start_cases destId dist roundTrip scenic (pageWorld p))
      as [(u & dest & _ & _ & E) | [_ E]]; rewrite E; simpl.
    + destruct p as [[w c r] d dc g h]. split; reflexivity.
    + destruct p as [[w c r] d dc g h]. split; reflexivity.
  - intros n r. simpl. destruct (extract n (detoursInFlight p)) as [[fr rest] |].
    + pose proof (detour_resume_world fr r (pageWorld p)) as H. cbv zeta in H.
      destruct H as (Hu & _ & Hl & Hc & _).
      unfold pageWorld in *. simpl. repeat split; assumption.
    + repeat split.
Qed.

(** X12.  A detour whose promise rejects is not caught (the handler has no
    [try]): the rejection goes to the runtime and the page is otherwise as
    it was, the request off the list of those in flight. *)
Theorem detour_rejection_changes_nothing :
  forall (p : Page) (n : nat) (fr : DetourFrame) (rest : list DetourFrame) (e : Error),
    extract n (detoursInFlight p) = Some (fr, rest) ->
    fst (handleUpdateRoute_resume fr (Rejected e) (pageWorld p)) = Throw e /\
    pageStep (DetourSettled n (Rejected e)) p =
      mkPage
        (mkSystem
           (mkWorld (userLocation (pageWorld p)) (userElevation (pageWorld p))
              (destinations (pageWorld p)) (selectedDestination (pageWorld p))
              (isLoading (pageWorld p)) (sidebarOpen (pageWorld p)) (isMobile (pageWorld p))
              (lastCalcLocation (pageWorld p)) (mapCurrent (pageWorld p))
              (effects (pageWorld p) ++ [UnhandledRejection e]))
           (curationsInFlight (base p)) (routesInFlight (base p)))
        rest (detourCalls p) (gpsLocation p) (hasInitialLoaded p).
Proof.
  intros p n fr rest e H. split; [reflexivity |]. simpl. rewrite H. reflexivity.
Qed.

Lemma detour_resume_success (fr : DetourFrame) (r : Route) (w : World) :
  destinations (snd (handleUpdateRoute_resume fr (Resolved (Some r)) w)) =
    replaceById (df_destId fr) (with_route (df_dest fr) r) (destinations w) /\
  selectedDestination (snd (handleUpdateRoute_resume fr (Resolved (Some r)) w)) =
    Some (with_route (df_dest fr) r).
Proof.
  detour_unfold. simpl. destruct (geometry r); [destruct (mapCurrent w) |]; simpl; split;
    reflexivity.
Qed.

Lemma find_first {A} (f : A -> bool) (l : list A) (x : A) :
  find f l = Some x ->
  exists before after,
    l = before ++ x :: after /\ f x = true /\ forall y, In y before -> f y = false.
Proof.
  induction l as [| a t IH]; simpl; [discriminate |].
  destruct (f a) eqn:E.
  - intros H. inversion H; subst. exists [], t. repeat split; auto. intros y [].
  - intros H. destruct (IH H) as (before & after & Hl & Hx & Hb).
    exists (a :: before), after. subst t. repeat split; auto.
    intros y [<- | Hy]; auto.
Qed.

(** X11.  A detour that was actually requested is for the first entry of
    the list with the given id: the list is some entries with other ids,
    then that entry, then the rest; the request goes from the current user
    location to the coordinates of that entry, and the state is not
    changed by the request.  When its route arrives, that entry as it was
    at the time of the request, with the new route, becomes the selection
    and replaces every entry with that id; the ids of the list, in order,
    are unchanged and the other entries are untouched. *)
Theorem detour_installs_route :
  forall (destId : string) (dist : float) (roundTrip scenic : bool) (w0 w0' : World)
         (req : DetourRequest) (fr : DetourFrame),
    handleUpdateRoute_start destId dist roundTrip scenic w0 = (Normal (Some (req, fr)), w0') ->
    w0' = w0 /\
    userLocation w0 = Some (dr_origin req) /\
    In (df_dest fr) (destinations w0) /\
    id (df_dest fr) = destId /\
    dr_destination req = coordinates (df_dest fr) /\
    (exists before after,
       destinations w0 = before ++ df_dest fr :: after /\
       forall d, In d before -> id d <> destId) /\
    forall (r : Route) (w : World),
      let w' := snd (handleUpdateRoute_resume fr (Resolved (Some r)) w) in
      selectedDestination w' = Some (with_route (df_dest fr) r) /\
      map id (destinations w') = map id (destinations w) /\
      (forall d, In d (destinations w') ->
         (id d = destId -> d = with_route (df_dest fr) r) /\
         (id d <> destId -> In d (destinations w))).
Proof.
  intros destId dist roundTrip scenic w0 w0' req fr H.
  destruct (handleUpdateRoute_start_cases destId dist roundTrip scenic w0)
    as [(u & dest & Hu & Hf & E) | [_ E]]; rewrite E in H; [| discriminate].
  inversion H; subst; clear H. simpl.
  assert (Hfirst : exists before after,
             destinations w0' = before ++ dest :: after /\
             forall d, In d before -> id d <> destId).
  { destruct (find_first _ _ _ Hf) as (before & after & Hl & _ & Hb).
    exists before, after. split; [exact Hl |].
    intros d Hd. apply String.eqb_neq. now apply Hb. }
  apply find_some in Hf as [Hin Heq]. apply String.eqb_eq in Heq. subst destId.
  repeat split; auto.
  - apply detour_resume_success.
  - rewrite (proj1 (detour_resume_success _ r w)). now apply replaceById_ids.
  - intros Hid. rewrite (proj1 (detour_resume_success _ r w)) in H.
    now apply (replaceById_hit _ _ _ _ H).
  - intros Hid. rewrite (proj1 (detour_resume_success _ r w)) in H.
    exact (proj1 (replaceById_miss _ (with_route dest r) _ (destinations w) Hid eq_refl) H).
Qed.

(** *** The loading flag over the whole event loop *)

(** With no re-curation and no walking-route request in flight, the
    loading flag is off. *)
Definition idleMeansNotLoading (p : Page) : Prop :=
  curationsInFlight (base p) = [] ->
  routesInFlight (base p) = [] ->
  isLoading (pageWorld p) = false.

Lemma runSelect_cases (cl : SelectClosure) (d : EnrichedDestination) (sys : System) :
  (exists fr,
      routesInFlight (runSelect cl d sys) = routesInFlight sys ++ [fr] /\
      curationsInFlight (runSelect cl d sys) = curationsInFlight sys)
  \/
  (routesInFlight (runSelect cl d sys) = routesInFlight sys /\
   curationsInFlight (runSelect cl d sys) = curationsInFlight sys /\
   isLoading (world (runSelect cl d sys)) = isLoading (world sys) /\
   destinations (world (runSelect cl d sys)) = destinations (world sys)).
Proof.
  unfold runSelect. js_unfold.
  destruct (cl_userLocation cl) as [u |], (lacksRealRoute d), (cl_isMobile cl),
    (mapCurrent (world sys)); simpl;
    first [ left; eexists; split; reflexivity | right; repeat split ].
Qed.

Lemma updateRoutes_resume_clears_loading (fr : CurationFrame)
    (r : Settled (list EnrichedDestination)) (w : World) :
  isLoading (snd (unhandled (updateRoutes_resume fr r w))) = false.
Proof.
  destruct r as [curated | e]; [| reflexivity].
  js_unfold. simpl. destruct (cf_selectedDestination fr) as [sel |]; [| reflexivity].
  destruct (find _ _); reflexivity.
Qed.

Lemma select_resume_clears_loading (fr : RouteFrame) (r : Settled (option Route)) (w : World) :
  isLoading (snd (unhandled (handleSelectDestination_resume fr r w))) = false.
Proof.
  destruct r as [[real |] | e]; try reflexivity.
  js_unfold. simpl. destruct (geometry real); [destruct (mapCurrent w) |]; reflexivity.
Qed.

Lemma step_keeps_idleMeansNotLoading (ev : Event) (sys : System) :
  (curationsInFlight sys = [] -> routesInFlight sys = [] -> isLoading (world sys) = false) ->
  curationsInFlight (step ev sys) = [] -> routesInFlight (step ev sys) = [] ->
  isLoading (world (step ev sys)) = false.
Proof.
  intros Inv Hc Hr.
  assert (Hmove : isMovement ev = true ->
                  routesInFlight (step ev sys) = routesInFlight sys).
  { destruct ev; try discriminate; intros _; simpl.
    - unfold runUpdateRoutes. destruct (unhandled _) as [[[fr |] |] w']; reflexivity.
    - destruct (Object_is _ _); [reflexivity |].
      unfold runUpdateRoutes. destruct (unhandled _) as [[[fr |] |] w']; reflexivity. }
  destruct ev as [c | e | d | cl d | t | n r | n r].
  - destruct (movement_cases (UserLocationChanged c) sys eq_refl)
      as [(Hc' & _ & _ & Hl & _) | (u & places & _ & _ & _ & _ & Hc' & _)].
    + rewrite Hl. apply Inv; [congruence | rewrite <- Hmove; auto].
    + rewrite Hc' in Hc. now destruct (curationsInFlight sys).
  - destruct (movement_cases (UserElevationChanged e) sys eq_refl)
      as [(Hc' & _ & _ & Hl & _) | (u & places & _ & _ & _ & _ & Hc' & _)].
    + rewrite Hl. apply Inv; [congruence | rewrite <- Hmove; auto].
    + rewrite Hc' in Hc. now destruct (curationsInFlight sys).
  - simpl in *. destruct (runSelect_cases (closureOf (world sys)) d sys)
      as [(fr & Hr' & _) | (Hr' & Hc' & Hl & _)].
    + rewrite Hr' in Hr. now destruct (routesInFlight sys).
    + rewrite Hl. apply Inv; congruence.
  - simpl in *. destruct (runSelect_cases cl d sys)
      as [(fr & Hr' & _) | (Hr' & Hc' & Hl & _)].
    + rewrite Hr' in Hr. now destruct (routesInFlight sys).
    + rewrite Hl. apply Inv; congruence.
  - simpl in *.
    assert (E : isLoading (snd (unhandled (handleCategoryFilter t (world sys)))) =
                isLoading (world sys)).
    { js_unfold. destruct (isMobile (world sys)); reflexivity. }
    rewrite E. now apply Inv.
  - simpl in *. destruct (extract n (curationsInFlight sys)) as [[fr rest] |] eqn:E.
    + simpl. apply updateRoutes_resume_clears_loading.
    + now apply Inv.
  - simpl in *. destruct (extract n (routesInFlight sys)) as [[fr rest] |] eqn:E.
    + simpl. apply select_resume_clears_loading.
    + now apply Inv.
Qed.

Lemma onPosition_world (coords : Coordinates) (w : World) :
  userLocation (snd (unhandled (onPosition coords w))) = Some coords /\
  userElevation (snd (unhandled (onPosition coords w))) = userElevation w /\
  destinations (snd (unhandled (onPosition coords w))) = destinations w /\
  selectedDestination (snd (unhandled (onPosition coords w))) = selectedDestination w /\
  isLoading (snd (unhandled (onPosition coords w))) = isLoading w /\
  lastCalcLocation (snd (unhandled (onPosition coords w))) = lastCalcLocation w /\
  effects (snd (unhandled (onPosition coords w))) =
    effects w ++ (if mapCurrent w then [FlyTo coords 13] else []).
Proof.
  detour_unfold. simpl. destruct (mapCurrent w); simpl; rewrite ?app_nil_r; repeat split.
Qed.

Lemma pageStep_keeps_idleMeansNotLoading (ev : PageEvent) (p : Page) :
  idleMeansNotLoading p -> idleMeansNotLoading (pageStep ev p).
Proof.
  unfold idleMeansNotLoading, pageWorld. intros Inv.
  destruct ev as [ev | | coords | err | width | | | destId dist roundTrip scenic | n r]; simpl;
    unfold pageWorld.
  - apply step_keeps_idleMeansNotLoading. exact Inv.
  - destruct (hasInitialLoaded p); simpl; exact Inv.
  - pose proof (onPosition_world coords (world (base p))) as (_ & _ & _ & _ & Hl & _).
    unfold pageWorld.
    remember (snd (unhandled (onPosition coords (world (base p))))) as w1 eqn:Hw1.
    destruct (runUpdateRoutes_cases w1 (base p)) as [(u & _ & _ & _ & _ & E) | [_ E]];
      rewrite E; simpl.
    + intros Hc. now destruct (curationsInFlight (base p)).
    + rewrite Hl. exact Inv.
  - exact Inv.
  - detour_unfold. destruct (Nat.ltb width 768); simpl; exact Inv.
  - detour_unfold. destruct (isMobile (world (base p))); simpl; exact Inv.
  - detour_unfold.
    destruct (recenterTarget (userLocation (world (base p))) (gpsLocation p));
      [destruct (mapCurrent (world (base p))) |]; simpl; exact Inv.
  - destruct (handleUpdateRoute_start_cases destId dist roundTrip scenic (world (base p)))
      as [(u & dest & _ & _ & E) | [_ E]]; unfold pageWorld; rewrite E; simpl; exact Inv.
  - destruct (extract n (detoursInFlight p)) as [[fr rest] |]; [| exact Inv]. simpl.
    pose proof (detour_resume_world fr r (world (base p))) as H. cbv zeta in H.
    destruct H as (_ & _ & Hl & _). rewrite Hl. exact Inv.
Qed.

(** X14.  The loading indicator cannot get stuck: if it is off whenever nothing
    is in flight, this stays so after any sequence of events.  Every
    continuation clears the flag in a [finally], also when its promise
    rejects. *)
Theorem loading_flag_never_stuck :
  forall (evs : list PageEvent) (p : Page),
    idleMeansNotLoading p -> idleMeansNotLoading (pageRun evs p).
Proof.
  induction evs as [| ev evs IH]; intros p Inv; simpl; [exact Inv |].
  apply IH. now apply pageStep_keeps_idleMeansNotLoading.
Qed.

(** *** The sidebar and the "Explore Spots" button *)

(** X24.  The panel is either on screen or off screen, never both; it is off
    screen exactly when the sidebar is closed and, on a mobile layout,
    nothing is selected; and the "Explore Spots" button is rendered
    exactly when the mobile sheet is off screen, so there is always a way
    to bring it back.  On a mobile layout the tall sheet is used exactly
    when a destination is selected. *)
Theorem explore_button_iff_sheet_hidden :
  forall w : World,
    let cls := getSidebarClasses w in
    let offScreen := hasClass "translate-x-full" cls || hasClass "translate-y-full" cls in
    let onScreen := hasClass "translate-x-0" cls || hasClass "translate-y-0" cls in
    onScreen = negb offScreen /\
    offScreen = negb (sidebarOpen w) &&
                (negb (isMobile w) ||
                 match selectedDestination w with Some _ => false | None => true end) /\
    exploreButtonShown w = hasClass "translate-y-full" cls /\
    hasClass "h-[65vh]" cls =
      isMobile w && match selectedDestination w with Some _ => true | None => false end.
Proof.
  intros w. unfold getSidebarClasses, exploreButtonShown.
  destruct (isMobile w), (sidebarOpen w), (selectedDestination w); vm_compute;
    repeat split.
Qed.

(** *** Destination markers *)

Lemma obj_setOwn_keys {V} (k : string) (v : V) (obj : list (string * V)) :
  map fst (obj_setOwn k v obj) =
    if existsb (String.eqb k) (map fst obj) then map fst obj else map fst obj ++ [k].
Proof.
  induction obj as [| [k0 v0] rest IH]; simpl; [reflexivity |].
  rewrite (String.eqb_sym k k0).
  destruct (String.eqb k0 k) eqn:E; simpl.
  - apply String.eqb_eq in E. now subst.
  - rewrite IH. now destruct (existsb (String.eqb k) (map fst rest)).
Qed.

Lemma obj_setOwn_fresh {V} (k : string) (v : V) (obj : list (string * V)) :
  ~ In k (map fst obj) -> obj_setOwn k v obj = obj ++ [(k, v)].
Proof.
  induction obj as [| [k0 v0] rest IH]; simpl; intros H; [reflexivity |].
  destruct (String.eqb k0 k) eqn:E.
  - apply String.eqb_eq in E. exfalso. apply H. now left.
  - rewrite IH; [reflexivity |]. intros Hin. apply H. now right.
Qed.

Lemma obj_setOwn_values {V} (k : string) (v : V) (obj : list (string * V)) (kv : string * V) :
  In kv (obj_setOwn k v obj) -> In kv obj \/ kv = (k, v).
Proof.
  induction obj as [| [k0 v0] rest IH]; simpl.
  - intros [H | []]. now right.
  - destruct (String.eqb k0 k) eqn:E; simpl.
    + apply String.eqb_eq in E. subst k0. intros [H | H]; [now right | left; now right].
    + intros [H | H]; [left; now left |].
      destruct (IH H) as [H' | H']; [left; now right | now right].
Qed.

Lemma obj_set_keys {V} (k : string) (v : V) (obj : list (string * V)) :
  map fst (obj_set k v obj) =
    if String.eqb k "__proto__" then map fst obj
    else if existsb (String.eqb k) (map fst obj) then map fst obj
         else map fst obj ++ [k].
Proof.
  unfold obj_set. destruct (String.eqb k "__proto__"); [reflexivity |].
  apply obj_setOwn_keys.
Qed.

Lemma obj_set_fresh {V} (k : string) (v : V) (obj : list (string * V)) :
  k <> "__proto__"%string ->
  ~ In k (map fst obj) -> obj_set k v obj = obj ++ [(k, v)].
Proof.
  intros Hp H. unfold obj_set. apply String.eqb_neq in Hp. rewrite Hp.
  now apply obj_setOwn_fresh.
Qed.

Lemma obj_set_NoDup {V} (k : string) (v : V) (obj : list (string * V)) :
  NoDup (map fst obj) -> NoDup (map fst (obj_set k v obj)).
Proof.
  intros H. rewrite obj_set_keys.
  destruct (String.eqb k "__proto__"); [exact H |].
  destruct (existsb (String.eqb k) (map fst obj)) eqn:E; [exact H |].
  apply NoDup_app; [exact H | repeat constructor; intros [] | ].
  intros x Hx [Hk | []]. subst x.
  assert (existsb (String.eqb k) (map fst obj) = true).
  { apply existsb_exists. exists k. split; [exact Hx | apply String.eqb_refl]. }
  congruence.
Qed.

Lemma obj_set_values {V} (k : string) (v : V) (obj : list (string * V)) (kv : string * V) :
  In kv (obj_set k v obj) -> In kv obj \/ kv = (k, v).
Proof.
  unfold obj_set. destruct (String.eqb k "__proto__"); [now left |].
  apply obj_setOwn_values.
Qed.

Lemma fold_addMarker_onMap (r : World) (ds : list EnrichedDestination) :
  forall L : MarkerLayer,
    onMap (fold_left (addMarker r) ds L) = onMap L ++ markersFor r (created L) ds /\
    created (fold_left (addMarker r) ds L) = created L + List.length ds.
Proof.
  induction ds as [| d t IH]; intros L; simpl.
  - rewrite app_nil_r. split; [reflexivity | lia].
  - destruct (IH (addMarker r L d)) as [H1 H2]. rewrite H1, H2. simpl.
    rewrite <- app_assoc. split; [reflexivity | lia].
Qed.

Lemma fold_addMarker_keys_NoDup (r : World) (ds : list EnrichedDestination) :
  forall L : MarkerLayer,
    NoDup (map fst (markersRef L)) ->
    NoDup (map fst (markersRef (fold_left (addMarker r) ds L))).
Proof.
  induction ds as [| d t IH]; intros L H; simpl; [exact H |].
  apply IH. simpl. now apply obj_set_NoDup.
Qed.

Lemma fold_addMarker_keys_incl (r : World) (ds : list EnrichedDestination) :
  forall L : MarkerLayer,
    incl (map fst (markersRef (fold_left (addMarker r) ds L)))
         (map fst (markersRef L) ++ map id ds).
Proof.
  induction ds as [| d t IH]; intros L; simpl.
  - rewrite app_nil_r. apply incl_refl.
  - intros k Hk. apply IH in Hk. simpl in Hk. rewrite obj_set_keys in Hk.
    apply in_app_or in Hk as [Hk | Hk].
    + destruct (String.eqb (id d) "__proto__"); [apply in_or_app; now left |].
      destruct (existsb _ _).
      * apply in_or_app. now left.
      * apply in_app_or in Hk as [Hk | [Hk | []]]; apply in_or_app;
          [now left | right; now left].
    + apply in_or_app. right. now right.
Qed.

Lemma fold_addMarker_ref (r : World) (ds : list EnrichedDestination) :
  forall L : MarkerLayer,
    NoDup (map id ds) ->
    ~ In "__proto__"%string (map id ds) ->
    (forall d, In d ds -> ~ In (id d) (map fst (markersRef L))) ->
    markersRef (fold_left (addMarker r) ds L) =
      markersRef L ++ combine (map id ds) (markersFor r (created L) ds).
Proof.
  induction ds as [| d t IH]; intros L Hnd Hp Hfresh; simpl.
  - now rewrite app_nil_r.
  - inversion Hnd as [| ? ? Hd Hnd']; subst.
    assert (Hpd : id d <> "__proto__"%string).
    { intros E. apply Hp. left. exact E. }
    rewrite IH; simpl; [| exact Hnd' | intros Hin; apply Hp; now right |].
    + rewrite obj_set_fresh; [| exact Hpd | apply Hfresh; now left].
      now rewrite <- app_assoc.
    + intros d' Hd'. rewrite obj_set_keys.
      assert (Hf : ~ In (id d') (map fst (markersRef L))) by (apply Hfresh; now right).
      destruct (String.eqb (id d) "__proto__"); [exact Hf |].
      destruct (existsb _ _); [exact Hf |].
      intros Hin. apply in_app_or in Hin as [Hin | [Hin | []]]; [now apply Hf |].
      apply Hd. rewrite Hin. now apply in_map.
Qed.

Lemma markersFor_facts (r : World) (ds : list EnrichedDestination) :
  forall n,
    map mk_dest (markersFor r n ds) = ds /\
    List.length (markersFor r n ds) = List.length ds /\
    Forall (fun m => mk_lngLat m = coordinates (mk_dest m) /\ mk_closure m = closureOf r /\
                     n <= mk_serial m < n + List.length ds)
           (markersFor r n ds).
Proof.
  induction ds as [| d t IH]; intros n; simpl.
  - repeat split; constructor.
  - destruct (IH (S n)) as (H1 & H2 & H3). rewrite H1, H2. repeat split; auto.
    constructor; [simpl; repeat split; lia |].
    eapply Forall_impl; [| exact H3]. simpl. intros m (A & B & C). repeat split; auto; lia.
Qed.

Lemma combine_fst_snd {A B} (l1 : list A) (l2 : list B) :
  List.length l1 = List.length l2 ->
  map fst (combine l1 l2) = l1 /\ map snd (combine l1 l2) = l2.
Proof.
  revert l2. induction l1 as [| a t IH]; intros [| b t2] H; simpl in *; try discriminate;
    [split; reflexivity |].
  destruct (IH t2) as [H1 H2]; [lia |]. now rewrite H1, H2.
Qed.

Lemma fold_addMarker_tracked (r : World) (ds : list EnrichedDestination) :
  forall (L : MarkerLayer) (kv : string * Marker),
    In kv (markersRef (fold_left (addMarker r) ds L)) ->
    In kv (markersRef L) \/
    (In (snd kv) (markersFor r (created L) ds) /\ fst kv = id (mk_dest (snd kv))).
Proof.
  induction ds as [| d t IH]; intros L kv H; simpl in *; [now left |].
  apply IH in H as [H | [H1 H2]]; simpl in *.
  - apply obj_set_values in H as [H | H]; [now left |].
    right. subst kv. simpl. split; [now left | reflexivity].
  - right. split; [now right | exact H2].
Qed.

(** Removing every tracked marker from the map. *)
Definition isTracked (tracked : list (string * Marker)) (m : Marker) : bool :=
  existsb (fun kv => Nat.eqb (mk_serial m) (mk_serial (snd kv))) tracked.

Lemma remove_tracked (tracked : list (string * Marker)) :
  forall l : list Marker,
    fold_left (fun l kv => removeMarker (snd kv) l) tracked l =
      filter (fun m => negb (isTracked tracked m)) l.
Proof.
  induction tracked as [| kv t IH]; intros l; simpl.
  - induction l as [| m l IHl]; simpl; [reflexivity | now rewrite <- IHl].
  - rewrite IH. unfold removeMarker. induction l as [| m l IHl]; simpl; [reflexivity |].
    destruct (Nat.eqb (mk_serial m) (mk_serial (snd kv))); simpl.
    + exact IHl.
    + destruct (isTracked t m); simpl; [exact IHl | now rewrite IHl].
Qed.

Lemma syncMarkers_runs (render : World) (layer : MarkerLayer) :
  mapCurrent render = true -> destinations render <> [] ->
  syncMarkers render layer =
    fold_left (addMarker render) (destinations render)
      (mkMarkerLayer [] (filter (fun m => negb (isTracked (markersRef layer) m)) (onMap layer))
                     (created layer)).
Proof.
  intros Hm Hd. unfold syncMarkers. rewrite Hm. simpl.
  destruct (destinations render) as [| d t]; [contradiction |]. simpl.
  now rewrite remove_tracked.
Qed.

(** X17.  When the ids of the list are pairwise distinct, none of them is
    ["__proto__"], and every marker on the map is tracked in [markersRef],
    a run of the marker effect (map in place, list not empty) leaves
    exactly one marker per destination: the markers on the map are those
    of the list, in list order; [markersRef] holds exactly these markers,
    each under the id of its destination.  Each marker sits at its
    destination's coordinates and its click listener holds the callback of
    this render. *)
Theorem markers_mirror_destinations :
  forall (render : World) (layer : MarkerLayer),
    mapCurrent render = true ->
    destinations render <> [] ->
    NoDup (map id (destinations render)) ->
    ~ In "__proto__"%string (map id (destinations render)) ->
    (forall m, In m (onMap layer) -> isTracked (markersRef layer) m = true) ->
    let layer' := syncMarkers render layer in
    map mk_dest (onMap layer') = destinations render /\
    Permutation (map snd (markersRef layer')) (onMap layer') /\
    Permutation (map fst (markersRef layer')) (map id (destinations render)) /\
    (forall kv, In kv (markersRef layer') -> fst kv = id (mk_dest (snd kv))) /\
    Forall (fun m => mk_lngLat m = coordinates (mk_dest m) /\
                     mk_closure m = closureOf render) (onMap layer').
Proof.
  intros render layer Hm Hd Hnd Hproto Htr layer'.
  assert (Hkv : forall kv, In kv (markersRef layer') -> fst kv = id (mk_dest (snd kv))).
  { intros kv Hin. unfold layer' in Hin.
    rewrite (syncMarkers_runs render layer Hm Hd) in Hin.
    apply fold_addMarker_tracked in Hin as [[] | [_ Hk]]. exact Hk. }
  revert Hkv. unfold layer'.
  rewrite (syncMarkers_runs render layer Hm Hd).
  assert (Hclear : filter (fun m => negb (isTracked (markersRef layer) m)) (onMap layer) = []).
  { induction (onMap layer) as [| m l IH]; simpl; [reflexivity |].
    rewrite (Htr m); [| now left]. simpl. apply IH. intros m' Hm'. apply Htr. now right. }
  rewrite Hclear.
  destruct (fold_addMarker_onMap render (destinations render)
              (mkMarkerLayer [] [] (created layer))) as [Hon _].
  rewrite Hon, fold_addMarker_ref; simpl; auto.
  destruct (markersFor_facts render (destinations render) (created layer)) as (H1 & H2 & H3).
  destruct (combine_fst_snd (map id (destinations render))
              (markersFor render (created layer) (destinations render))) as [C1 C2].
  { now rewrite length_map, H2. }
  rewrite C1, C2. intros Hkv. repeat split; auto.
  eapply Forall_impl; [| exact H3]. simpl. intros m (A & B & _). now split.
Qed.

Lemma syncMarkers_keys_NoDup (render : World) (layer : MarkerLayer) :
  NoDup (map fst (markersRef layer)) ->
  NoDup (map fst (markersRef (syncMarkers render layer))).
Proof.
  intros H. unfold syncMarkers.
  destruct (negb (mapCurrent render) || Nat.eqb (List.length (destinations render)) 0);
    [exact H |].
  apply fold_addMarker_keys_NoDup. constructor.
Qed.

(** X18.  Two destinations with the same id share one slot of [markersRef] but
    get a marker each: after a run of the effect there are then more
    markers on the map than [markersRef] holds. *)
Theorem duplicate_id_leaves_untracked_marker :
  forall (render : World) (layer : MarkerLayer),
    mapCurrent render = true ->
    destinations render <> [] ->
    ~ NoDup (map id (destinations render)) ->
    List.length (markersRef (syncMarkers render layer)) <
    List.length (onMap (syncMarkers render layer)).
Proof.
  intros render layer Hm Hd Hdup.
  rewrite (syncMarkers_runs render layer Hm Hd).
  set (L := mkMarkerLayer [] _ (created layer)).
  destruct (fold_addMarker_onMap render (destinations render) L) as [Hon _].
  rewrite Hon, length_app.
  destruct (markersFor_facts render (destinations render) (created L)) as (_ & Hlen & _).
  rewrite Hlen.
  assert (Hk : List.length (map fst (markersRef (fold_left (addMarker render)
                                         (destinations render) L)))
               < List.length (map id (destinations render))).
  { destruct (Nat.lt_ge_cases
                (List.length (map fst (markersRef (fold_left (addMarker render)
                                                     (destinations render) L))))
                (List.length (map id (destinations render)))) as [Hlt | Hge];
      [exact Hlt |].
    exfalso. apply Hdup.
    apply (NoDup_incl_NoDup
             (l := map fst (markersRef (fold_left (addMarker render)
                                          (destinations render) L)))).
    - apply fold_addMarker_keys_NoDup. constructor.
    - exact Hge.
    - apply (fold_addMarker_keys_incl render (destinations render) L). }
  rewrite !length_map in Hk. lia.
Qed.

(** All serials in use are below the counter. *)
Definition serialsBelow (layer : MarkerLayer) : Prop :=
  (forall m, In m (onMap layer) -> mk_serial m < created layer) /\
  (forall kv, In kv (markersRef layer) -> mk_serial (snd kv) < created layer).

Lemma syncMarkers_serialsBelow (render : World) (layer : MarkerLayer) :
  serialsBelow layer -> serialsBelow (syncMarkers render layer).
Proof.
  intros [Hon Href]. unfold syncMarkers.
  destruct (negb (mapCurrent render) || Nat.eqb (List.length (destinations render)) 0);
    [split; assumption |].
  rewrite remove_tracked.
  set (L := mkMarkerLayer [] _ (created layer)).
  destruct (fold_addMarker_onMap render (destinations render) L) as [H1 H2].
  destruct (markersFor_facts render (destinations render) (created L)) as (_ & _ & HF).
  rewrite Forall_forall in HF.
  split.
  - intros m Hm. rewrite H1 in Hm. rewrite H2. apply in_app_or in Hm as [Hm | Hm].
    + unfold L in Hm. simpl in Hm. apply filter_In in Hm as [Hm _].
      apply Hon in Hm. simpl. lia.
    + apply HF in Hm. lia.
  - intros kv Hkv. rewrite H2.
    apply fold_addMarker_tracked in Hkv as [[] | [Hkv _]].
    apply HF in Hkv. lia.
Qed.

Lemma untracked_survives (render : World) (layer : MarkerLayer) (m : Marker) :
  serialsBelow layer ->
  In m (onMap layer) -> isTracked (markersRef layer) m = false ->
  In m (onMap (syncMarkers render layer)) /\
  isTracked (markersRef (syncMarkers render layer)) m = false.
Proof.
  intros [Hon Href] Hin Hun. unfold syncMarkers.
  destruct (negb (mapCurrent render) || Nat.eqb (List.length (destinations render)) 0);
    [split; assumption |].
  rewrite remove_tracked.
  set (L := mkMarkerLayer [] _ (created layer)).
  destruct (fold_addMarker_onMap render (destinations render) L) as [H1 _].
  destruct (markersFor_facts render (destinations render) (created L)) as (_ & _ & HF).
  rewrite Forall_forall in HF.
  split.
  - rewrite H1. apply in_or_app. left. unfold L. simpl.
    apply filter_In. split; [exact Hin | now rewrite Hun].
  - unfold isTracked.
    destruct (existsb _ (markersRef (fold_left _ _ L))) eqn:E; [| reflexivity].
    apply existsb_exists in E as (kv & Hkv & Heq). apply Nat.eqb_eq in Heq.
    apply fold_addMarker_tracked in Hkv as [[] | [Hkv _]].
    apply HF in Hkv. apply Hon in Hin. simpl in Hkv. lia.
Qed.

(** X19.  A marker that is on the map but not in [markersRef] is never removed:
    it is still on the map, and still untracked, after any number of
    further runs of the marker effect. *)
Theorem untracked_marker_is_never_removed :
  forall (renders : list World) (layer : MarkerLayer) (m : Marker),
    serialsBelow layer ->
    In m (onMap layer) ->
    isTracked (markersRef layer) m = false ->
    In m (onMap (syncMarkersOver renders layer)) /\
    isTracked (markersRef (syncMarkersOver renders layer)) m = false.
Proof.
  unfold syncMarkersOver.
  induction renders as [| r rs IH]; intros layer m Hs Hin Hun; simpl; [now split |].
  destruct (untracked_survives r layer m Hs Hin Hun) as [H1 H2].
  apply IH; auto. now apply syncMarkers_serialsBelow.
Qed.

(** X20.  With an empty list the marker effect returns at once.  So after the
    category filter has been applied for a category that no seed entry
    has, the list is empty and every marker of the previous list is still
    on the map. *)
Theorem empty_filter_keeps_old_markers :
  forall (t : Category) (w : World) (layer : MarkerLayer),
    (forall p, In p FEATURED_CAFES -> category p <> t) ->
    destinations (snd (handleCategoryFilter t w)) = [] /\
    syncMarkers (snd (handleCategoryFilter t w)) layer = layer.
Proof.
  intros t w layer H.
  assert (Hf : filter (fun p => Category_eqb (category p) t) FEATURED_CAFES = []).
  { induction FEATURED_CAFES as [| p l IH]; simpl; [reflexivity |].
    destruct (Category_eqb (category p) t) eqn:E.
    - exfalso. apply (H p); [now left |]. destruct (category p), t; simpl in E; congruence.
    - apply IH. intros q Hq. apply H. now right. }
  assert (Hd : destinations (snd (handleCategoryFilter t w)) = []).
  { js_unfold. rewrite Hf. destruct (isMobile w); reflexivity. }
  split; [exact Hd |].
  unfold syncMarkers. rewrite Hd. simpl. now rewrite orb_true_r.
Qed.

Lemma select_start_routeCalls (cl : SelectClosure) (d : EnrichedDestination) (w : World) :
  routeCalls (snd (handleSelectDestination_start cl d w)) =
    routeCalls w ++
    match cl_userLocation cl with
    | Some u =>
        if lacksRealRoute d then
          [Call_getWalkingRoute u (coordinates d) false false (preferredWaypoints d)
             (cl_userElevation cl) (elevation d)]
        else []
    | None => []
    end.
Proof.
  unfold routeCalls. js_unfold.
  destruct (cl_userLocation cl), (lacksRealRoute d), (cl_isMobile cl), (mapCurrent w); simpl;
    repeat rewrite routeCalls_snoc; simpl; now rewrite ?app_nil_r.
Qed.

(** X8.  A marker answers a click with the callback of the render in which the
    markers were built.  Whatever the state is when the click comes, a
    routing request is sent only if the user location was known in that
    render, and then from that location and with that elevation; if it was
    unknown then, no request is sent even when the user has been located
    since. *)
Theorem marker_click_uses_location_of_its_render :
  forall (render : World) (layer : MarkerLayer) (kv : string * Marker) (now : World),
    mapCurrent render = true ->
    destinations render <> [] ->
    In kv (markersRef (syncMarkers render layer)) ->
    In (mk_dest (snd kv)) (destinations render) /\
    fst kv = id (mk_dest (snd kv)) /\
    routeCalls (snd (clickMarker (snd kv) now)) =
      routeCalls now ++
      match userLocation render with
      | Some u =>
          if lacksRealRoute (mk_dest (snd kv)) then
            [Call_getWalkingRoute u (coordinates (mk_dest (snd kv))) false false
               (preferredWaypoints (mk_dest (snd kv))) (userElevation render)
               (elevation (mk_dest (snd kv)))]
          else []
      | None => []
      end.
Proof.
  intros render layer kv now Hm Hd Hin.
  rewrite (syncMarkers_runs render layer Hm Hd) in Hin.
  apply fold_addMarker_tracked in Hin as [[] | [Hin Hk]].
  simpl in Hin.
  destruct (markersFor_facts render (destinations render) (created layer)) as (Hds & _ & HF).
  rewrite Forall_forall in HF. destruct (HF _ Hin) as (_ & Hcl & _).
  split; [| split; [exact Hk |]].
  - rewrite <- Hds. now apply in_map.
  - unfold clickMarker. rewrite select_start_routeCalls, Hcl. reflexivity.
Qed.

Lemma filter_key_at_most_one {V} (k : string) (l : list (string * V)) :
  NoDup (map fst l) ->
  List.length (filter (fun kv => String.eqb k (fst kv)) l) <= 1.
Proof.
  induction l as [| [k0 v0] t IH]; simpl; intros H; [lia |].
  inversion H as [| ? ? Hn Hnd]; subst.
  destruct (String.eqb k k0) eqn:E; [| now apply IH].
  apply String.eqb_eq in E. subst k0. simpl.
  assert (Hnone : filter (fun kv : string * V => String.eqb k (fst kv)) t = []).
  { clear IH H Hnd. induction t as [| [k1 v1] t IH]; simpl; [reflexivity |].
    destruct (String.eqb k k1) eqn:E1.
    - apply String.eqb_eq in E1. subst k1. exfalso. apply Hn. now left.
    - apply IH. intros Hin. apply Hn. now right. }
  rewrite Hnone. simpl. lia.
Qed.

(** X21.  However the marker effect has run before, the emphasis effect marks
    at most one tracked marker, and none when nothing is selected. *)
Theorem at_most_one_marker_emphasised :
  forall (renders : list World) (render : World),
    List.length (emphasised render (syncMarkersOver renders noMarkers)) <= 1 /\
    (selectedDestination render = None ->
     emphasised render (syncMarkersOver renders noMarkers) = []).
Proof.
  intros renders render.
  assert (Hnd : NoDup (map fst (markersRef (syncMarkersOver renders noMarkers)))).
  { unfold syncMarkersOver. generalize noMarkers (NoDup_nil string : NoDup (map fst (markersRef noMarkers))).
    induction renders as [| r rs IH]; intros L HL; simpl; [exact HL |].
    apply IH. now apply syncMarkers_keys_NoDup. }
  unfold emphasised. rewrite length_map. split.
  - destruct (selectedDestination render) as [sel |]; simpl.
    + now apply filter_key_at_most_one.
    + clear Hnd. induction (markersRef _) as [| kv l IH]; simpl; [lia | exact IH].
  - intros ->. simpl. clear Hnd.
    induction (markersRef _) as [| kv l IH]; simpl; [reflexivity | exact IH].
Qed.

(** *** Route line and via marker *)

(** The ref and the map agree on the via marker. *)
Definition viaAgrees (layer : RouteLayer) : Prop :=
  match routeViaMarkerRef layer with
  | Some s => exists pos, viaOnMap layer = [mkViaMarker s pos]
  | None => viaOnMap layer = []
  end.

Lemma routeLayerStep_viaAgrees (layer : RouteLayer) (ev : option World) :
  viaAgrees layer -> viaAgrees (routeLayerStep layer ev).
Proof.
  unfold viaAgrees. intros H. destruct ev as [render |]; simpl.
  - unfold syncRoute. destruct (mapCurrent render); simpl; [| exact H].
    destruct (selectedVia render) as [wp |], (routeViaMarkerRef layer) as [s |]; simpl.
    + destruct H as [pos H]. rewrite H. simpl. rewrite Nat.eqb_refl. eauto.
    + rewrite H. simpl. eauto.
    + destruct H as [pos H]. rewrite H. simpl. now rewrite Nat.eqb_refl.
    + exact H.
  - unfold onMapLoad. destruct (routeSource layer); exact H.
Qed.

Lemma syncRouteOver_viaAgrees (evs : list (option World)) :
  forall layer, viaAgrees layer -> viaAgrees (syncRouteOver evs layer).
Proof.
  unfold syncRouteOver.
  induction evs as [| ev evs IH]; intros layer H; simpl; [exact H |].
  apply IH. now apply routeLayerStep_viaAgrees.
Qed.

(** X22.  The via marker is tied one to one to the via point of the selected
    route.  Over any sequence of renders and map loads there is never more
    than one via marker on the map; and right after the effect has run
    with the map in place, the marker is there exactly when the selected
    route has a via point, and stands at that point. *)
Theorem via_marker_follows_selection :
  forall (evs : list (option World)),
    List.length (viaOnMap (syncRouteOver evs noRoute)) <= 1 /\
    forall render : World,
      mapCurrent render = true ->
      map vm_lngLat (viaOnMap (syncRoute render (syncRouteOver evs noRoute))) =
        match selectedVia render with
        | Some wp => [wp_coordinates wp]
        | None => []
        end.
Proof.
  intros evs.
  assert (H : viaAgrees (syncRouteOver evs noRoute)).
  { apply syncRouteOver_viaAgrees. reflexivity. }
  split.
  - unfold viaAgrees in H. destruct (routeViaMarkerRef _) as [s |].
    + destruct H as [pos H]. rewrite H. simpl. lia.
    + rewrite H. simpl. lia.
  - intros render Hm. unfold syncRoute. rewrite Hm. simpl.
    unfold viaAgrees in H.
    destruct (selectedVia render) as [wp |], (routeViaMarkerRef _) as [s |]; simpl.
    + destruct H as [pos H]. rewrite H. simpl. now rewrite Nat.eqb_refl.
    + now rewrite H.
    + destruct H as [pos H]. rewrite H. simpl. now rewrite Nat.eqb_refl.
    + now rewrite H.
Qed.

Lemma syncRouteOver_source (evs : list (option World)) :
  forall layer,
    (routeSource (syncRouteOver evs layer) = None <->
     routeSource layer = None /\ ~ In None evs).
Proof.
  unfold syncRouteOver.
  induction evs as [| ev evs IH]; intros layer; simpl.
  - tauto.
  - rewrite IH. destruct ev as [render |]; simpl.
    + assert (E : routeSource (syncRoute render layer) = None <-> routeSource layer = None).
      { unfold syncRoute. destruct (mapCurrent render); simpl; [| tauto].
        destruct (selectedVia render), (routeViaMarkerRef layer), (routeSource layer);
          simpl; split; congruence. }
      rewrite E. split.
      * intros [A B]. split; [exact A |]. intros [C | C]; [discriminate C | contradiction].
      * intros [A B]. split; [exact A |]. intros C. apply B. now right.
    + split.
      * intros [A _]. unfold onMapLoad in A.
        destruct (routeSource layer) eqn:R; simpl in A; congruence.
      * intros [_ B]. exfalso. apply B. now left.
Qed.

(** X23.  The route line.  Once the map has fired ['load'], a run of the effect
    with the map in place sets the line to the geometry of the selected
    destination's route, or to the empty collection when there is none.
    Before ['load'] the effect writes nothing, and ['load'] itself installs
    the empty collection: a route selected before the map has loaded is
    not drawn until the selection changes again. *)
Theorem route_line_needs_loaded_map :
  forall (evs : list (option World)) (render : World),
    mapCurrent render = true ->
    (In None evs ->
     routeSource (syncRoute render (syncRouteOver evs noRoute)) =
       Some (selectedGeometry render)) /\
    (~ In None evs ->
     routeSource (syncRoute render (syncRouteOver evs noRoute)) = None /\
     routeSource (onMapLoad (syncRoute render (syncRouteOver evs noRoute))) = Some None).
Proof.
  intros evs render Hm.
  pose proof (syncRouteOver_source evs noRoute) as Hs.
  assert (E : routeSource (syncRoute render (syncRouteOver evs noRoute)) =
              match routeSource (syncRouteOver evs noRoute) with
              | Some _ => Some (selectedGeometry render)
              | None => None
              end).
  { unfold syncRoute. rewrite Hm. simpl.
    destruct (selectedVia render), (routeViaMarkerRef _); reflexivity. }
  split.
  - intros Hin. rewrite E.
    destruct (routeSource (syncRouteOver evs noRoute)) eqn:R; [reflexivity |].
    exfalso. apply (proj1 Hs); auto.
  - intros Hno.
    assert (R : routeSource (syncRouteOver evs noRoute) = None).
    { apply Hs. split; [reflexivity | exact Hno]. }
    split; [now rewrite E, R |].
    unfold onMapLoad. rewrite E, R. reflexivity.
Qed.

(** *** The geolocation fix and the initial data *)

(** X15.  The first position fix on a page whose list is not empty and that is
    not loading: both locations are set to the fix, the camera flies to it
    (when the map is there), and then a re-curation starts from it, with
    estimates for the whole list and the elevation known at that moment. *)
Theorem first_fix_starts_recuration :
  forall (coords : Coordinates) (p : Page),
    destinations (pageWorld p) <> [] ->
    isLoading (pageWorld p) = false ->
    lastCalcLocation (pageWorld p) = None ->
    let p' := pageStep (GeolocationFix coords) p in
    userLocation (pageWorld p') = Some coords /\
    gpsLocation p' = Some coords /\
    lastCalcLocation (pageWorld p') = Some coords /\
    isLoading (pageWorld p') = true /\
    destinations (pageWorld p') = destinations (pageWorld p) /\
    effects (pageWorld p') =
      effects (pageWorld p) ++
      (if mapCurrent (pageWorld p) then [FlyTo coords 13] else []) ++
      [Call_curateDestinations
         (map (withEstimate coords (userElevation (pageWorld p))) (destinations (pageWorld p)))] /\
    curationsInFlight (base p') =
      curationsInFlight (base p) ++ [mkCurationFrame (selectedDestination (pageWorld p))].
Proof.
  intros coords p Hd Hl Hlast p'. unfold p', pageStep, pageWorld in *.
  pose proof (onPosition_world coords (world (base p))) as (Hu & He & Hds & Hs & Hl' & Hla & Hef).
  remember (snd (unhandled (onPosition coords (world (base p))))) as w1 eqn:Hw1.
  destruct (runUpdateRoutes_cases w1 (base p)) as [(u & Hu1 & _ & _ & _ & E) | [Hno E]];
    rewrite E; simpl.
  - rewrite Hu in *. inversion Hu1; subst u.
    rewrite He, Hds, Hs, Hef, <- app_assoc. repeat split.
  - exfalso. rewrite Hu, Hds, Hl', Hla, Hlast in Hno. simpl in Hno.
    destruct Hno as [Hno | [Hno | [Hno | Hno]]]; try congruence.
    destruct (destinations (world (base p))); [contradiction | discriminate].
Qed.

Lemma pageStep_hasInitialLoaded (ev : PageEvent) (p : Page) :
  hasInitialLoaded p = true -> hasInitialLoaded (pageStep ev p) = true.
Proof.
  intros H. destruct ev; simpl; try exact H.
  - now rewrite H.
  - destruct (unhandled _) as [[[[req fr] |] |] w]; exact H.
  - destruct (extract _ _) as [[fr rest] |]; exact H.
Qed.

(** X16.  The seed list is installed by the first run of the initial-data
    effect and by no later one: whatever has happened since (a filter, a
    curation, a route), a further run of the effect changes nothing. *)
Theorem initial_data_is_installed_once :
  forall (p : Page),
    (hasInitialLoaded p = false ->
     destinations (pageWorld (pageStep InitialData p)) = FEATURED_CAFES /\
     hasInitialLoaded (pageStep InitialData p) = true) /\
    (forall evs : list PageEvent,
       hasInitialLoaded p = true ->
       hasInitialLoaded (pageRun evs p) = true /\
       pageStep InitialData (pageRun evs p) = pageRun evs p).
Proof.
  intros p. split.
  - intros H. simpl. rewrite H. split; reflexivity.
  - intros evs. revert p. unfold pageRun.
    induction evs as [| ev evs IH]; intros p H; simpl.
    + split; [exact H | now rewrite H].
    + apply IH. now apply pageStep_hasInitialLoaded.
Qed.

(** *** What a re-curation request carries besides distance and duration *)


(** *** A filter applied while a re-curation is in flight *)

Lemma categoryFilter_keeps_frames (t : Category) (sys : System) :
  curationsInFlight (step (CategoryFilter t) sys) = curationsInFlight sys /\
  routesInFlight (step (CategoryFilter t) sys) = routesInFlight sys.
Proof. split; reflexivity. Qed.

(** X6.  A category filter applied while a re-curation is in flight does not
    last: when the curation resolves, the list becomes the sorted
    response, exactly as if the filter had never been applied. *)
Theorem pending_curation_overrides_filter :
  forall (sys : System) (n : nat) (fr : CurationFrame) (rest : list CurationFrame)
         (t : Category) (curated : list EnrichedDestination),
    extract n (curationsInFlight sys) = Some (fr, rest) ->
    destinations (world (step (CurationSettled n (Resolved curated))
                           (step (CategoryFilter t) sys))) =
      destinations (world (step (CurationSettled n (Resolved curated)) sys)) /\
    Permutation
      (destinations (world (step (CurationSettled n (Resolved curated))
                              (step (CategoryFilter t) sys))))
      curated.
Proof.
  intros sys n fr rest t curated H.
  assert (E : forall s, curationsInFlight s = curationsInFlight sys ->
                destinations (world (step (CurationSettled n (Resolved curated)) s)) =
                Array_sort byDistance curated).
  { intros s Hs. simpl. rewrite Hs, H. simpl.
    js_unfold. simpl. destruct (cf_selectedDestination fr) as [sel |]; [| reflexivity].
    destruct (find _ _); reflexivity. }
  rewrite (E (step (CategoryFilter t) sys)), (E sys); try reflexivity.
  split; [reflexivity | apply Array_sort_perm].
Qed.


(** *** Selection, resize and the panel *)

(** X9.  After a selection made through a callback that knows the current
    layout, the panel is on screen and the "Explore Spots" button is not
    rendered: on a desktop layout the sidebar has been opened, on a mobile
    layout the sheet is shown for the selection. *)
Theorem selection_brings_panel_on_screen :
  forall (cl : SelectClosure) (d : EnrichedDestination) (w : World),
    cl_isMobile cl = isMobile w ->
    let w' := snd (handleSelectDestination_start cl d w) in
    hasClass "translate-x-0" (getSidebarClasses w') ||
    hasClass "translate-y-0" (getSidebarClasses w') = true /\
    exploreButtonShown w' = false.
Proof.
  intros cl d w H w'. unfold w', getSidebarClasses, exploreButtonShown. js_unfold.
  rewrite H.
  destruct (isMobile w), (mapCurrent w), (cl_userLocation cl), (lacksRealRoute d),
    (sidebarOpen w); vm_compute; split; reflexivity.
Qed.

(** X25.  Every resize to a width below 768 closes the sidebar, also one the
    user had opened: with nothing selected the sheet is then off screen
    and the "Explore Spots" button is rendered.  A resize to 768 or more
    leaves the sidebar as it is. *)
Theorem narrow_resize_closes_sidebar :
  forall (width : nat) (p : Page),
    let w' := pageWorld (pageStep (Resize width) p) in
    (width < 768 ->
     isMobile w' = true /\ sidebarOpen w' = false /\
     (selectedDestination (pageWorld p) = None -> exploreButtonShown w' = true)) /\
    (768 <= width ->
     isMobile w' = false /\ sidebarOpen w' = sidebarOpen (pageWorld p) /\
     exploreButtonShown w' = false).
Proof.
  intros width p w'. unfold w', pageWorld. simpl. unfold exploreButtonShown. detour_unfold.
  split; intros H.
  - apply Nat.ltb_lt in H. rewrite H. simpl. repeat split.
    unfold pageWorld. now intros ->.
  - apply Nat.ltb_ge in H. rewrite H. simpl. repeat split.
Qed.

End App.


(** ** Worked instances

    The statements above at concrete inputs, with [planarDistance] for
    [getDistance] and [seed3bars2cafes] for [FEATURED_CAFES]. *)

Definition sys0 : System := mkSystem (mounted seed3bars2cafes) [] [].

Definition step0 : Event -> System -> System := step planarDistance seed3bars2cafes.
Definition run0 : list Event -> System -> System := run planarDistance seed3bars2cafes.

Lemma estimate_distance_and_duration_witness :
  updateRoutes_start planarDistance (located seed3bars2cafes) =
    (Normal (Some (mkCurationFrame None)),
     snd (updateRoutes_start planarDistance (located seed3bars2cafes))) /\
  exists U places,
    userLocation (located seed3bars2cafes) = Some U /\
    effects (snd (updateRoutes_start planarDistance (located seed3bars2cafes))) =
      effects (located seed3bars2cafes) ++ [Call_curateDestinations places] /\
    Forall2
      (fun D E =>
         exists r,
           route E = Some r /\
           distance r = (planarDistance U (coordinates D) * 1.35)%float /\
           duration r = (planarDistance U (coordinates D) * 1.35 / 1.4)%float /\
           isEstimate r = true)
      (destinations (located seed3bars2cafes)) places.
Proof.
  split; [reflexivity |].
  apply (estimate_distance_and_duration planarDistance (located seed3bars2cafes) _
           (mkCurationFrame None)).
  reflexivity.
Defined.

(** The first estimate of that run: bar-1 lies 100 units away. *)
Example estimate_bar1 :
  option_map (fun r => (distance r, duration r))
    (route (withEstimate planarDistance origin None bar1))
  = Some ((100 * 1.35)%float, (100 * 1.35 / 1.4)%float).
Proof. reflexivity. Qed.

(** C2, on the code.  A curated list whose first entry has distance [0]
    (the user stands on it) and whose second has distance [6.75] is
    installed with the entry at distance [0] last: [0 || Infinity] is
    [Infinity], so the installed list is not ascending by
    [route.distance], and an entry that has a distance stands where
    those lacking one belong. *)
Theorem zero_distance_is_sorted_last :
  forall (fr : CurationFrame) (w : World),
    option_map distance (route here) = Some 0%float /\
    option_map distance (route there) = Some 6.75%float /\
    destinations (snd (updateRoutes_resume fr (Resolved [here; there]) w)) = [there; here].
Proof.
  intros fr w. rewrite updateRoutes_resume_destinations. repeat split.
Qed.

(** The same through the whole pipeline: the request of a user standing
    on bar-1 comes back unchanged, and bar-1, at distance [0], is installed
    behind the four entries that are further away. *)
Example zero_distance_end_to_end :
  let sys1 := step0 (UserLocationChanged (coordinates bar1)) sys0 in
  let places := map (withEstimate planarDistance (coordinates bar1) None) seed3bars2cafes in
  let sys2 := step0 (CurationSettled 0 (Resolved places)) sys1 in
  curationCalls (world sys1) = [places] /\
  map id (destinations (world sys2)) =
    ["cafe-2"; "bar-3"; "cafe-1"; "bar-2"; "bar-1"]%string /\
  map (fun d => option_map distance (route d)) (skipn 4 (destinations (world sys2))) =
    [Some 0%float].
Proof. vm_compute. repeat split. Qed.



(** C4 at a concrete input: the user at the origin selects bar-1, the
    routing request is rejected.  The rejection reaches the runtime as an
    unhandled one; the list and the selection are as they were. *)
Example select_rejection_end_to_end :
  let sys1 := step0 (SidebarSelect bar1) (mkSystem (located seed3bars2cafes) [] []) in
  let sys2 := step0 (RouteSettled 0 (Rejected "network down"%string)) sys1 in
  List.length (routesInFlight sys1) = 1 /\
  effects (world sys2) = effects (world sys1) ++ [UnhandledRejection "network down"%string] /\
  destinations (world sys2) = destinations (world sys1) /\
  selectedDestination (world sys2) = Some bar1 /\
  isLoading (world sys2) = false.
Proof. vm_compute. repeat split. Qed.

Lemma recuration_needs_displacement_witness :
  let sys := step0 (UserLocationChanged origin) sys0 in
  let ev := UserLocationChanged (mkCoordinates 3 4) in
  (isMovement ev = true /\
   lastCalcLocation (world sys) = Some origin /\
   locationAfter ev (world sys) = Some (mkCoordinates 3 4)) /\
  ((planarDistance (mkCoordinates 3 4) origin <=? 20)%float = true ->
     curationsInFlight (step0 ev sys) = curationsInFlight sys /\
     curationCalls (world (step0 ev sys)) = curationCalls (world sys) /\
     destinations (world (step0 ev sys)) = destinations (world sys)) /\
  (curationsInFlight (step0 ev sys) <> curationsInFlight sys ->
     (20 <? planarDistance (mkCoordinates 3 4) origin)%float = true).
Proof.
  intros sys ev. split; [repeat split |].
  apply (recuration_needs_displacement planarDistance seed3bars2cafes ev sys origin
           (mkCoordinates 3 4)); reflexivity.
Defined.

(** A move of 5 units after a finished re-curation starts nothing; a move
    of 30 units does. *)
Example threshold_example :
  let sys := run0 [UserLocationChanged origin;
                   CurationSettled 0 (Resolved seed3bars2cafes)] sys0 in
  isLoading (world sys) = false /\
  List.length (curationCalls (world (step0 (UserLocationChanged (mkCoordinates 3 4)) sys))) = 1 /\
  List.length (curationCalls (world (step0 (UserLocationChanged (mkCoordinates 30 0)) sys))) = 2.
Proof. vm_compute. repeat split. Qed.

(** C6, on the code.  A first re-curation has finished and the markers
    have been rebuilt, so their click handler knows the user location.  The
    user moves 30 units: a second re-curation starts and stays in flight.
    The user clicks the marker of the nearest destination; the routing
    request resolves, and the [finally] of the selection handler clears
    the loading flag.  The next move of more than 20 units then starts a
    third re-curation while the second has not settled. *)
Theorem second_recuration_while_first_in_flight :
  let estimates := map (withEstimate planarDistance origin None) seed3bars2cafes in
  let sysA := run0 [UserLocationChanged origin; CurationSettled 0 (Resolved estimates)] sys0 in
  let markerClosure := closureOf (world sysA) in
  let nearest := hd bar1 (destinations (world sysA)) in
  let sysB := run0 [UserLocationChanged (mkCoordinates 30 0);
                    MarkerClick markerClosure nearest;
                    RouteSettled 0 (Resolved (Some (realRoute 70)))] sysA in
  let sysC := step0 (UserLocationChanged (mkCoordinates 60 0)) sysB in
  curationsInFlight sysA = [] /\
  List.length (curationsInFlight sysB) = 1 /\
  isLoading (world sysB) = false /\
  List.length (curationsInFlight sysC) = 2 /\
  List.length (curationCalls (world sysC)) = 1 + List.length (curationCalls (world sysB)).
Proof. vm_compute. repeat split. Qed.

Lemma failed_attempt_moves_reference_point_witness :
  let sys1 := step0 (UserLocationChanged origin) sys0 in
  let sys2 := step0 (CurationSettled 0 (Rejected "quota"%string)) sys1 in
  List.length (curationsInFlight sys1) = 1 /\
  lastCalcLocation (world sys1) = Some origin /\
  lastCalcLocation (world sys2) = Some origin /\
  curationsInFlight sys2 = curationsInFlight sys0 /\
  destinations (world sys2) = destinations (world sys0) /\
  forall u' : Coordinates,
    List.length (curationsInFlight (step0 (UserLocationChanged u') sys2)) = 1 <->
    (20 <? planarDistance u' origin)%float = true.
Proof.
  intros sys1 sys2. split; [reflexivity |].
  apply (failed_attempt_moves_reference_point planarDistance seed3bars2cafes sys0 origin
           "quota"%string).
  reflexivity.
Defined.

Lemma select_without_location_witness :
  let cl := closureOf (world sys0) in
  (cl_userLocation cl = None /\ mapCurrent (world sys0) = true) /\
  selectedDestination (world (step0 (MarkerClick cl bar1) sys0)) = Some bar1 /\
  effects (world (step0 (MarkerClick cl bar1) sys0)) =
    effects (world sys0) ++ [FlyTo (coordinates bar1) 14] /\
  routeCalls (world (step0 (MarkerClick cl bar1) sys0)) = routeCalls (world sys0) /\
  routesInFlight (step0 (MarkerClick cl bar1) sys0) = routesInFlight sys0 /\
  destinations (world (step0 (MarkerClick cl bar1) sys0)) = destinations (world sys0) /\
  isLoading (world (step0 (MarkerClick cl bar1) sys0)) = isLoading (world sys0).
Proof.
  intros cl. split; [split; reflexivity |].
  apply (select_without_location planarDistance seed3bars2cafes cl bar1 sys0); reflexivity.
Defined.

(** The example of C8: three bars and two cafes, filtered to bars. *)
Example category_filter_bar_example :
  forall w : World,
    map id (destinations (snd (handleCategoryFilter seed3bars2cafes bar w))) =
      ["bar-1"; "bar-2"; "bar-3"]%string /\
    List.length (destinations (snd (handleCategoryFilter seed3bars2cafes bar w))) = 3 /\
    selectedDestination (snd (handleCategoryFilter seed3bars2cafes bar w)) = None.
Proof.
  intros w. unfold handleCategoryFilter, bind, when, setDestinations,
    setSelectedDestination, setSidebarOpen, modify, ret.
  destruct (isMobile w); repeat split.
Qed.

(** ** Worked instances of the further properties *)

Definition pageStep0 : PageEvent -> Page -> Page := pageStep planarDistance seed3bars2cafes.
Definition pageRun0 : list PageEvent -> Page -> Page := pageRun planarDistance seed3bars2cafes.

(** The page once the seed list is installed, and once the user has been
    located at the origin. *)
Definition page0 : Page := mkPage sys0 [] [] None true.
Definition pageLocated : Page :=
  mkPage (mkSystem (located seed3bars2cafes) [] []) [] [] (Some origin) true.

(** A list in which bar-1 appears twice. *)
Definition twiceBar1 : World :=
  mkWorld (Some origin) None [bar1; bar1] None false true false None true [].

(** bar-1 selected, with a real route. *)
Definition bar1Selected : World :=
  mkWorld (Some origin) None seed3bars2cafes (Some (with_route bar1 (realRoute 130)))
          false true false None true [].

Lemma seed_has_no_distance :
  forall d, In d seed3bars2cafes -> distanceOrInfinity d = infinity.
Proof.
  intros d H. simpl in H.
  repeat (destruct H as [<- | H]; [reflexivity |]). contradiction.
Qed.

Lemma unranked_response_keeps_order_witness :
  (forall d, In d seed3bars2cafes -> distanceOrInfinity d = infinity) /\
  destinations (snd (updateRoutes_resume (mkCurationFrame None) (Resolved seed3bars2cafes)
                       (located seed3bars2cafes))) = seed3bars2cafes.
Proof.
  split; [exact seed_has_no_distance |].
  apply (unranked_response_keeps_order (mkCurationFrame None) seed3bars2cafes
           (located seed3bars2cafes)).
  exact seed_has_no_distance.
Defined.

Lemma detour_needs_location_and_listed_id_witness :
  (userLocation (pageWorld page0) = None \/
   (forall d, In d (destinations (pageWorld page0)) -> id d <> "bar-1"%string)) /\
  pageStep0 (UpdateRoute "bar-1" 2000 true false) page0 = page0.
Proof.
  split; [left; reflexivity |].
  apply (detour_needs_location_and_listed_id planarDistance seed3bars2cafes).
  left. reflexivity.
Defined.

Lemma detour_rejection_changes_nothing_witness :
  let p := pageStep0 (UpdateRoute "bar-1" 2000 true false) pageLocated in
  let fr := mkDetourFrame "bar-1" bar1 false in
  extract 0 (detoursInFlight p) = Some (fr, []) /\
  fst (handleUpdateRoute_resume fr (Rejected "timeout"%string) (pageWorld p)) =
    Throw "timeout"%string /\
  pageStep0 (DetourSettled 0 (Rejected "timeout"%string)) p =
    mkPage
      (mkSystem
         (mkWorld (userLocation (pageWorld p)) (userElevation (pageWorld p))
            (destinations (pageWorld p)) (selectedDestination (pageWorld p))
            (isLoading (pageWorld p)) (sidebarOpen (pageWorld p)) (isMobile (pageWorld p))
            (lastCalcLocation (pageWorld p)) (mapCurrent (pageWorld p))
            (effects (pageWorld p) ++ [UnhandledRejection "timeout"%string]))
         (curationsInFlight (base p)) (routesInFlight (base p)))
      [] (detourCalls p) (gpsLocation p) (hasInitialLoaded p).
Proof.
  intros p fr. split; [reflexivity |].
  apply (detour_rejection_changes_nothing planarDistance seed3bars2cafes p 0 fr []
           "timeout"%string).
  reflexivity.
Defined.

Lemma detour_installs_route_witness :
  let w0 := located seed3bars2cafes in
  let req := mkDetourRequest origin (coordinates bar1) 2000 true false None None None None in
  let fr := mkDetourFrame "bar-1" bar1 false in
  handleUpdateRoute_start "bar-1" 2000 true false w0 = (Normal (Some (req, fr)), w0) /\
  (w0 = w0 /\
   userLocation w0 = Some (dr_origin req) /\
   In (df_dest fr) (destinations w0) /\
   id (df_dest fr) = "bar-1"%string /\
   dr_destination req = coordinates (df_dest fr) /\
   (exists before after,
      destinations w0 = before ++ df_dest fr :: after /\
      forall d, In d before -> id d <> "bar-1"%string) /\
   forall (r : Route) (w : World),
     let w' := snd (handleUpdateRoute_resume fr (Resolved (Some r)) w) in
     selectedDestination w' = Some (with_route (df_dest fr) r) /\
     map id (destinations w') = map id (destinations w) /\
     (forall d, In d (destinations w') ->
        (id d = "bar-1"%string -> d = with_route (df_dest fr) r) /\
        (id d <> "bar-1"%string -> In d (destinations w)))).
Proof.
  intros w0 req fr. split; [reflexivity |].
  apply (detour_installs_route "bar-1" 2000 true false w0 w0 req fr).
  reflexivity.
Defined.

Lemma loading_flag_never_stuck_witness :
  let evs := [InitialData; GeolocationFix origin;
              Basic (SidebarSelect bar1);
              Basic (RouteSettled 0 (Rejected "offline"%string));
              Basic (CurationSettled 0 (Rejected "quota"%string))] in
  idleMeansNotLoading firstRender /\
  idleMeansNotLoading (pageRun0 evs firstRender).
Proof.
  intros evs.
  assert (H : idleMeansNotLoading firstRender) by (intros _ _; reflexivity).
  split; [exact H |].
  exact (loading_flag_never_stuck planarDistance seed3bars2cafes evs firstRender H).
Defined.

(** In that run both requests have settled, and the flag is indeed off. *)
Example loading_flag_after_two_failures :
  let p := pageRun0 [InitialData; GeolocationFix origin;
                     Basic (SidebarSelect bar1);
                     Basic (RouteSettled 0 (Rejected "offline"%string));
                     Basic (CurationSettled 0 (Rejected "quota"%string))] firstRender in
  curationsInFlight (base p) = [] /\ routesInFlight (base p) = [] /\
  isLoading (pageWorld p) = false /\
  List.length (effects (pageWorld p)) = 6.
Proof. vm_compute. repeat split. Qed.

Lemma seed_ids_distinct : NoDup (map id seed3bars2cafes).
Proof.
  repeat (constructor; [simpl; intuition discriminate |]). constructor.
Qed.

Lemma seed_has_no_proto_id : ~ In "__proto__"%string (map id seed3bars2cafes).
Proof. simpl. intuition discriminate. Qed.

Lemma markers_mirror_destinations_witness :
  let render := located seed3bars2cafes in
  let layer' := syncMarkers render noMarkers in
  (mapCurrent render = true /\ destinations render <> [] /\
   NoDup (map id (destinations render)) /\
   ~ In "__proto__"%string (map id (destinations render)) /\
   (forall m, In m (onMap noMarkers) -> isTracked (markersRef noMarkers) m = true)) /\
  (map mk_dest (onMap layer') = destinations render /\
   Permutation (map snd (markersRef layer')) (onMap layer') /\
   Permutation (map fst (markersRef layer')) (map id (destinations render)) /\
   (forall kv, In kv (markersRef layer') -> fst kv = id (mk_dest (snd kv))) /\
   Forall (fun m => mk_lngLat m = coordinates (mk_dest m) /\
                    mk_closure m = closureOf render) (onMap layer')).
Proof.
  intros render layer'.
  assert (H1 : destinations render <> []) by discriminate.
  assert (H2 : forall m, In m (onMap noMarkers) -> isTracked (markersRef noMarkers) m = true)
    by (intros m []).
  split; [split; [reflexivity | split; [exact H1 | split; [exact seed_ids_distinct |
            split; [exact seed_has_no_proto_id | exact H2]]]] |].
  exact (markers_mirror_destinations render noMarkers eq_refl H1 seed_ids_distinct
           seed_has_no_proto_id H2).
Defined.

Lemma twiceBar1_has_duplicate : ~ NoDup (map id (destinations twiceBar1)).
Proof.
  intros H. inversion H as [| ? ? Hn _]. apply Hn. left. reflexivity.
Qed.

Lemma duplicate_id_leaves_untracked_marker_witness :
  (mapCurrent twiceBar1 = true /\ destinations twiceBar1 <> [] /\
   ~ NoDup (map id (destinations twiceBar1))) /\
  List.length (markersRef (syncMarkers twiceBar1 noMarkers)) <
  List.length (onMap (syncMarkers twiceBar1 noMarkers)).
Proof.
  assert (H1 : destinations twiceBar1 <> []) by discriminate.
  split; [repeat split; [exact H1 | exact twiceBar1_has_duplicate] |].
  exact (duplicate_id_leaves_untracked_marker twiceBar1 noMarkers eq_refl H1
           twiceBar1_has_duplicate).
Defined.

Lemma leaked_layer_serialsBelow : serialsBelow (syncMarkers twiceBar1 noMarkers).
Proof.
  split.
  - intros m H. simpl in H. repeat (destruct H as [<- | H]; [simpl; lia |]). contradiction.
  - intros kv H. simpl in H. repeat (destruct H as [<- | H]; [simpl; lia |]). contradiction.
Qed.

Lemma untracked_marker_is_never_removed_witness :
  let layer := syncMarkers twiceBar1 noMarkers in
  let m := mkMarker 0 (coordinates bar1) bar1 (closureOf twiceBar1) in
  let renders := [located seed3bars2cafes; bar1Selected; twiceBar1] in
  (serialsBelow layer /\ In m (onMap layer) /\ isTracked (markersRef layer) m = false) /\
  In m (onMap (syncMarkersOver renders layer)) /\
  isTracked (markersRef (syncMarkersOver renders layer)) m = false.
Proof.
  intros layer m renders.
  assert (Hin : In m (onMap layer)) by (left; reflexivity).
  split; [repeat split; [apply leaked_layer_serialsBelow | apply leaked_layer_serialsBelow
                        | exact Hin] |].
  exact (untracked_marker_is_never_removed renders layer m leaked_layer_serialsBelow Hin
           eq_refl).
Defined.

Lemma only_cafes_no_bar :
  forall p, In p [place "cafe-1" cafe 0 200; place "cafe-2" cafe 30 40]%float ->
            category p <> bar.
Proof.
  intros p H. simpl in H.
  repeat (destruct H as [<- | H]; [discriminate |]). contradiction.
Qed.

Lemma empty_filter_keeps_old_markers_witness :
  let cafes := [place "cafe-1" cafe 0 200; place "cafe-2" cafe 30 40]%float in
  let layer := syncMarkers (located cafes) noMarkers in
  (forall p, In p cafes -> category p <> bar) /\
  destinations (snd (handleCategoryFilter cafes bar (located cafes))) = [] /\
  syncMarkers (snd (handleCategoryFilter cafes bar (located cafes))) layer = layer.
Proof.
  intros cafes layer. split; [exact only_cafes_no_bar |].
  exact (empty_filter_keeps_old_markers cafes bar (located cafes) layer only_cafes_no_bar).
Defined.

Lemma marker_click_uses_location_of_its_render_witness :
  let render := mounted seed3bars2cafes in
  let now := located seed3bars2cafes in
  let kv := ("bar-1"%string, mkMarker 0 (coordinates bar1) bar1 (closureOf render)) in
  (mapCurrent render = true /\ destinations render <> [] /\
   In kv (markersRef (syncMarkers render noMarkers))) /\
  In (mk_dest (snd kv)) (destinations render) /\
  fst kv = id (mk_dest (snd kv)) /\
  routeCalls (snd (clickMarker (snd kv) now)) =
    routeCalls now ++
    match userLocation render with
    | Some u =>
        if lacksRealRoute (mk_dest (snd kv)) then
          [Call_getWalkingRoute u (coordinates (mk_dest (snd kv))) false false
             (preferredWaypoints (mk_dest (snd kv))) (userElevation render)
             (elevation (mk_dest (snd kv)))]
        else []
    | None => []
    end.
Proof.
  intros render now kv.
  assert (H1 : destinations render <> []) by discriminate.
  assert (H2 : In kv (markersRef (syncMarkers render noMarkers))) by (left; reflexivity).
  split; [repeat split; [exact H1 | exact H2] |].
  exact (marker_click_uses_location_of_its_render render noMarkers kv now eq_refl H1 H2).
Defined.

(** The markers were built before the user was located: a click on the
    marker of bar-1 sends no routing request although the location is
    known by now, while the same selection in the sidebar sends one. *)
Example marker_click_after_fix :
  let render := mounted seed3bars2cafes in
  let now := located seed3bars2cafes in
  let m := mkMarker 0 (coordinates bar1) bar1 (closureOf render) in
  In ("bar-1"%string, m) (markersRef (syncMarkers render noMarkers)) /\
  routeCalls (snd (clickMarker m now)) = [] /\
  List.length (routeCalls (snd (handleSelectDestination_start (closureOf now) bar1 now))) = 1.
Proof. split; [left; reflexivity | split; reflexivity]. Qed.

Lemma route_line_needs_loaded_map_witness :
  let evs := [Some (located seed3bars2cafes); None] in
  (mapCurrent bar1Selected = true) /\
  (In None evs ->
   routeSource (syncRoute bar1Selected (syncRouteOver evs noRoute)) =
     Some (selectedGeometry bar1Selected)) /\
  (~ In None evs ->
   routeSource (syncRoute bar1Selected (syncRouteOver evs noRoute)) = None /\
   routeSource (onMapLoad (syncRoute bar1Selected (syncRouteOver evs noRoute))) = Some None).
Proof.
  intros evs. split; [reflexivity |].
  exact (route_line_needs_loaded_map evs bar1Selected eq_refl).
Defined.

Lemma first_fix_starts_recuration_witness :
  let p' := pageStep0 (GeolocationFix origin) page0 in
  (destinations (pageWorld page0) <> [] /\ isLoading (pageWorld page0) = false /\
   lastCalcLocation (pageWorld page0) = None) /\
  userLocation (pageWorld p') = Some origin /\
  gpsLocation p' = Some origin /\
  lastCalcLocation (pageWorld p') = Some origin /\
  isLoading (pageWorld p') = true /\
  destinations (pageWorld p') = destinations (pageWorld page0) /\
  effects (pageWorld p') =
    effects (pageWorld page0) ++
    (if mapCurrent (pageWorld page0) then [FlyTo origin 13] else []) ++
    [Call_curateDestinations
       (map (withEstimate planarDistance origin (userElevation (pageWorld page0)))
            (destinations (pageWorld page0)))] /\
  curationsInFlight (base p') =
    curationsInFlight (base page0) ++ [mkCurationFrame (selectedDestination (pageWorld page0))].
Proof.
  intros p'.
  assert (H1 : destinations (pageWorld page0) <> []) by discriminate.
  split; [repeat split; exact H1 |].
  exact (first_fix_starts_recuration planarDistance seed3bars2cafes origin page0 H1
           eq_refl eq_refl).
Defined.


Lemma pending_curation_overrides_filter_witness :
  let sys := step0 (UserLocationChanged origin) sys0 in
  let curated := map (withEstimate planarDistance origin None) seed3bars2cafes in
  extract 0 (curationsInFlight sys) = Some (mkCurationFrame None, []) /\
  destinations (world (step0 (CurationSettled 0 (Resolved curated))
                         (step0 (CategoryFilter bar) sys))) =
    destinations (world (step0 (CurationSettled 0 (Resolved curated)) sys)) /\
  Permutation
    (destinations (world (step0 (CurationSettled 0 (Resolved curated))
                            (step0 (CategoryFilter bar) sys))))
    curated.
Proof.
  intros sys curated. split; [reflexivity |].
  apply (pending_curation_overrides_filter planarDistance seed3bars2cafes sys 0
           (mkCurationFrame None) [] bar curated).
  reflexivity.
Defined.

Lemma selection_brings_panel_on_screen_witness :
  let w := located seed3bars2cafes in
  let w' := snd (handleSelectDestination_start (closureOf w) bar1 w) in
  cl_isMobile (closureOf w) = isMobile w /\
  hasClass "translate-x-0" (getSidebarClasses w') ||
  hasClass "translate-y-0" (getSidebarClasses w') = true /\
  exploreButtonShown w' = false.
Proof.
  intros w w'. split; [reflexivity |].
  exact (selection_brings_panel_on_screen (closureOf w) bar1 w eq_refl).
Defined.

(** A destination whose id is ["__proto__"] gets a marker on the map but no
    slot in [markersRef]. *)
Example proto_id_is_not_tracked :
  let render := mkWorld (Some origin) None [place "__proto__" cafe 1 2; place "b" bar 3 4]
                        None false true false None true [] in
  map fst (markersRef (syncMarkers render noMarkers)) = ["b"%string] /\
  map (fun m => id (mk_dest m)) (onMap (syncMarkers render noMarkers)) =
    ["__proto__"; "b"]%string.
Proof. split; reflexivity. Qed.
